(** * snapshots.core: snapshot diff and tree reconciliation

    A shallow embedding of [snapshots/core.py]: the [Entry] record, the
    four-way [diff], [depth_sort], the four file operations with their
    failure policy, the [Reporter] class and the two reconciliation engines
    [sync] and [sync_bidirectional].

    Python dictionaries keyed by relative path are [gmap string _]; the
    lists held by the diff result are [list string] in append order;
    exceptions are an explicit result type; the file system, the reporter
    object and the console are threaded through a state-and-exception
    monad. *)

From Stdlib Require Import ZArith Ascii String Floats.SpecFloat.
From stdpp Require Import gmap strings list fin_maps pretty sorting.

Open Scope Z_scope.
Open Scope string_scope.
Open Scope list_scope.

(* ===================================================================== *)
(** ** Exceptions and results *)
(* ===================================================================== *)

(** The exceptions that the modelled code can see.  All three are
    subclasses of Python's [Exception], hence all are caught by an
    [except Exception] clause. *)
Inductive Exception : Type :=
  | OSError (msg : string)
  | KeyError (key : string)
  | ZeroDivisionError.

Inductive result (A : Type) : Type :=
  | Ok (a : A)
  | Raise (e : Exception).
Arguments Ok {A} a.
Arguments Raise {A} e.

(* ===================================================================== *)
(** ** Entries, snapshots and the diff result *)
(* ===================================================================== *)

(** [Entry = namedtuple('Entry', 'path relative_path isfile mtime')].
    [mtime] is the modification time counted in ticks of the file system's
    clock; the code only ever compares two mtimes with [!=] and [>]. *)
Record Entry : Type := mkEntry {
  path : string;
  relative_path : string;
  isfile : bool;
  mtime : Z
}.

Abbreviation Snapshot := (gmap string Entry).

(** The dictionary built at the top of [diff]: four lists of keys. *)
Record Diff : Type := mkDiff {
  left_only : list string;
  right_only : list string;
  changed : list string;
  common : list string
}.

Definition empty_diff : Diff := mkDiff [] [] [] [].

(** Iteration over a Python [set] visits every member once, in an order the
    language leaves to the implementation.  [set_iter] is that order. *)
Class PySet : Type := {
  set_iter : gset string → list string;
  set_iter_perm : ∀ X : gset string, set_iter X ≡ₚ elements X
}.

(** One possible order: the one stdpp enumerates a [gset] in. *)
Definition elements_order : PySet :=
  {| set_iter := elements; set_iter_perm := λ X, reflexivity (elements X) |}.

Section diff.
Context `{PySet}.

(** The body of the [for path in ...] loop of [diff].  [next_snapshot[path]]
    and [prev_snapshot[path]] raise [KeyError] on a missing key. *)
Definition diff_step (prev_snapshot next_snapshot : Snapshot)
    (path : string) (d : Diff) : result Diff :=
  match prev_snapshot !! path, next_snapshot !! path with
  | Some _, None =>
      Ok (mkDiff (left_only d ++ [path]) (right_only d) (changed d) (common d))
  | None, Some _ =>
      Ok (mkDiff (left_only d) (right_only d ++ [path]) (changed d) (common d))
  | Some p, Some n =>
      if bool_decide (mtime n ≠ mtime p) then
        if isfile n then
          Ok (mkDiff (left_only d) (right_only d) (changed d ++ [path]) (common d))
        else Ok d
      else
        Ok (mkDiff (left_only d) (right_only d) (changed d) (common d ++ [path]))
  | None, None => Raise (KeyError path)
  end.

Fixpoint diff_loop (prev_snapshot next_snapshot : Snapshot)
    (paths : list string) (d : Diff) : result Diff :=
  match paths with
  | [] => Ok d
  | path :: rest =>
      match diff_step prev_snapshot next_snapshot path d with
      | Ok d' => diff_loop prev_snapshot next_snapshot rest d'
      | Raise e => Raise e
      end
  end.

Definition diff (prev_snapshot next_snapshot : Snapshot) : result Diff :=
  diff_loop prev_snapshot next_snapshot
    (set_iter (dom prev_snapshot ∪ dom next_snapshot)) empty_diff.

End diff.

(* ===================================================================== *)
(** ** depth_sort *)
(* ===================================================================== *)

(** [x.count('/')] for a one-character needle. *)
Fixpoint count (c : ascii) (x : string) : nat :=
  match x with
  | EmptyString => 0%nat
  | String a x' => ((if Ascii.eqb a c then 1 else 0) + count c x')%nat
  end.

(** [sorted(xs, key=key, reverse=True)]: Python's sort is stable also under
    [reverse=True], so elements with equal keys keep their input order.
    [insert_desc] puts [x], which precedes all of [l] in the input, in front
    of the first element whose key is not larger. *)
Fixpoint insert_desc {A} (key : A → nat) (x : A) (l : list A) : list A :=
  match l with
  | [] => [x]
  | y :: l' =>
      if (key y <=? key x)%nat then x :: y :: l' else y :: insert_desc key x l'
  end.

Definition sorted_reverse {A} (key : A → nat) (xs : list A) : list A :=
  foldr (insert_desc key) [] xs.

Definition depth_sort (files : list string) : list string :=
  sorted_reverse (count "/"%char) files.

(* ===================================================================== *)
(** ** The platform: [os], [os.path] and [shutil] *)
(* ===================================================================== *)

(** What the host gives the program.  [FS] is the state of the file system
    (with the process's working directory).  A call that fails returns
    [inl msg], which stands for raising [OSError(msg)]; the string functions
    of [os.path] are total.

    [os_walk fs top prune] is the sequence of triples [(root, subdirs, files)]
    that [os.walk(top)] yields when the consumer empties the yielded
    [subdirs] list in place exactly at the roots where [prune root] holds
    (the way [take] stops the descent). *)
Class Platform : Type := {
  FS : Type;
  os_path_join : list string → string;
  os_path_normpath : string → string;
  os_path_relpath : FS → string → string → string;
  os_path_abspath : FS → string → string;
  os_path_dirname : string → string;
  os_path_basename : string → string;
  os_path_isfile : FS → string → bool;
  os_path_isdir : FS → string → bool;
  os_path_getmtime : FS → string → string + Z;
  os_listdir : FS → string → string + list string;
  os_walk : FS → string → (string → bool) → list (string * list string * list string);
  os_makedirs : string → FS → string + FS;
  os_remove : string → FS → string + FS;
  os_rmdir : string → FS → string + FS;
  shutil_copy2 : string → string → FS → string + FS
}.

(** [s.replace(a, b)] for one-character [a] and [b]. *)
Fixpoint replace (a b : ascii) (s : string) : string :=
  match s with
  | EmptyString => EmptyString
  | String c s' => String (if Ascii.eqb c a then b else c) (replace a b s')
  end.

Definition backslash : ascii := ascii_of_nat 92.

(** [len(s.split('/'))]: one more than the number of separators. *)
Definition len_split (s : string) : Z := Z.of_nat (S (count "/"%char s)).

(* ===================================================================== *)
(** ** The reporter object *)
(* ===================================================================== *)

(** A Python number as [percent] holds one: the [int] that [__init__]
    stores, or the [float] that [step] computes.  A float is an IEEE 754
    binary64 value, given by its sign, mantissa and exponent. *)
Inductive Number : Type :=
  | py_int (n : Z)
  | py_float (x : spec_float).

(** An int as a binary value with exponent zero, not rounded. *)
Definition unrounded (n : Z) : spec_float :=
  match n with
  | Z0 => S754_zero false
  | Zpos p => S754_finite false p 0
  | Zneg p => S754_finite true p 0
  end.

(** [a / b] on two ints, [b] not zero: the float nearest to the quotient of
    the two ints, ties to even; a zero [a] gives a zero with the sign of
    [b].  Where the quotient is beyond the range of a float, which takes
    an int of more than 300 digits, Python raises [OverflowError]; that
    case is not modelled, and [SFdiv] gives an infinity there. *)
Definition int_truediv (a b : Z) : spec_float :=
  SFdiv 53 1024 (unrounded a) (unrounded b).

(** [x * n] on a float and an int that a float holds exactly. *)
Definition float_mul_int (x : spec_float) (n : Z) : spec_float :=
  SFmul 53 1024 x (unrounded n).

(** [amount / total * 100], as [step] computes it. *)
Definition percent_of (amount total : Z) : Number :=
  py_float (float_mul_int (int_truediv amount total) 100).

(** The float [100.0]. *)
Definition float_100 : spec_float := S754_finite false 7036874417766400 (-46).

(** The instance attributes of [Reporter]. *)
Record Reporter : Type := mkReporter {
  name : string;
  total : Z;
  amount : Z;
  percent : Number
}.

(** [Reporter.__init__(self, name, total=100)]. *)
Definition Reporter_init (name : string) (total : Z) : Reporter :=
  mkReporter name total 0 (py_int 0).

(** A method call made on the reporter, with its arguments. *)
Inductive Call : Type :=
  | call_set_total (value : Z)
  | call_start (message : string)
  | call_info (message : string)
  | call_step (amount : Z) (message : string)
  | call_done (message : string).

(** A call made to one of the four mutating primitives of the platform,
    with its outcome. *)
Inductive Op : Type :=
  | op_makedirs (path : string) (ok : bool)
  | op_remove (path : string) (ok : bool)
  | op_rmdir (path : string) (ok : bool)
  | op_copy2 (src dst : string) (ok : bool).

Section engine.
Context `{Platform} `{PySet}.

(** Everything a reconciliation call can read or change: the file system,
    the reporter object, and three histories that exist only to state
    theorems: the method calls received by the reporter, the exceptions
    printed by the [except] handlers, and the mutating platform calls. *)
Record World : Type := mkWorld {
  fs : FS;
  reporter : Reporter;
  calls : list Call;
  printed : list Exception;
  journal : list Op
}.

(** State and exceptions.  A raised exception keeps the state reached so
    far: nothing is rolled back. *)
Definition M (A : Type) : Type := World → World * result A.

Definition ret {A} (a : A) : M A := λ w, (w, Ok a).

Definition raise {A} (e : Exception) : M A := λ w, (w, Raise e).

Definition bind {A B} (c : M A) (k : A → M B) : M B := λ w,
  match c w with
  | (w', Ok a) => k a w'
  | (w', Raise e) => (w', Raise e)
  end.

(** [try: body / except Exception as e: handler(e)]. *)
Definition try_except {A} (body : M A) (handler : Exception → M A) : M A := λ w,
  match body w with
  | (w', Ok a) => (w', Ok a)
  | (w', Raise e) => handler e w'
  end.

Definition lift {A} (r : result A) : M A := λ w, (w, r).

End engine.

Declare Scope prog_scope.
Delimit Scope prog_scope with prog.
Bind Scope prog_scope with M.
Notation "x ← y ; z" := (bind y (λ x, z)) (only parsing) : prog_scope.
Notation "y ;; z" := (bind y (λ _, z)) (only parsing) : prog_scope.

Section operations.
Context `{Platform} `{PySet}.
Local Open Scope prog_scope.

(** [for x in xs: body(x)]; an exception leaves the loop. *)
Fixpoint for_each {A} (xs : list A) (body : A → M unit) : M unit :=
  match xs with
  | [] => ret tt
  | x :: xs' => body x ;; for_each xs' body
  end.

(** *** Platform calls, run in a world *)

Definition read {A} (q : FS → A) : M A := λ w, (w, Ok (q (fs w))).

Definition read_os {A} (q : FS → string + A) : M A := λ w,
  match q (fs w) with
  | inr a => (w, Ok a)
  | inl msg => (w, Raise (OSError msg))
  end.

Definition mutate (op : bool → Op) (f : FS → string + FS) : M unit := λ w,
  match f (fs w) with
  | inr fs' =>
      (mkWorld fs' (reporter w) (calls w) (printed w) (journal w ++ [op true]), Ok tt)
  | inl msg =>
      (mkWorld (fs w) (reporter w) (calls w) (printed w) (journal w ++ [op false]),
       Raise (OSError msg))
  end.

(** [print(e)] in an [except] handler. *)
Definition print (e : Exception) : M unit := λ w,
  (mkWorld (fs w) (reporter w) (calls w) (printed w ++ [e]) (journal w), Ok tt).

(** *** Paths *)

Definition normalize (parts : list string) : string :=
  replace backslash "/"%char (os_path_normpath (os_path_join parts)).

Definition relative (fs : FS) (path start : string) : string :=
  replace backslash "/"%char (os_path_relpath fs path start).

(** *** File operations *)

Definition remove_file (path : string) : M unit :=
  try_except (mutate (op_remove path) (os_remove path)) print.

Definition remove_folder (path : string) : M unit :=
  try_except
    (listing ← read_os (λ fs, os_listdir fs path);
     match listing with
     | [] => mutate (op_rmdir path) (os_rmdir path)
     | _ :: _ => ret tt
     end)
    print.

Definition create_folder (path : string) : M unit :=
  isdir ← read (λ fs, os_path_isdir fs path);
  if negb isdir then
    try_except (mutate (op_makedirs path) (os_makedirs path)) print
  else ret tt.

Definition copy_file (src dst : string) : M unit :=
  create_folder (os_path_dirname dst) ;;
  mutate (op_copy2 src dst) (shutil_copy2 src dst).

(** *** take *)

(** The body of the inner [for f in files] loop of [take]. *)
Definition take_file (base_root root : string) (snapshot : Snapshot) (f : string)
    : M Snapshot :=
  let path := normalize [root; f] in
  relative_path ← read (λ fs, relative fs path base_root);
  mtime ← read_os (λ fs, os_path_getmtime fs path);
  ret (<[relative_path := mkEntry path relative_path true mtime]> snapshot).

Fixpoint take_files (base_root root : string) (files : list string)
    (snapshot : Snapshot) : M Snapshot :=
  match files with
  | [] => ret snapshot
  | f :: files' =>
      snapshot' ← take_file base_root root snapshot f;
      take_files base_root root files' snapshot'
  end.

(** The body of the [for root, subdirs, files in os.walk(...)] loop. *)
Definition take_root (base_root : string) (snapshot : Snapshot)
    (item : string * list string * list string) : M Snapshot :=
  let '(root, subdirs, files) := item in
  let path := normalize [root] in
  relative_path ← read (λ fs, relative fs path base_root);
  mtime ← read_os (λ fs, os_path_getmtime fs path);
  take_files base_root root files
    (<[relative_path := mkEntry path relative_path false mtime]> snapshot).

Fixpoint take_walk (base_root : string)
    (items : list (string * list string * list string)) (snapshot : Snapshot)
    : M Snapshot :=
  match items with
  | [] => ret snapshot
  | item :: items' =>
      snapshot' ← take_root base_root snapshot item;
      take_walk base_root items' snapshot'
  end.

Definition take (folder_or_file : string) (depth : Z) : M Snapshot :=
  isfile ← read (λ fs, os_path_isfile fs folder_or_file);
  if isfile : bool then
    path ← read (λ fs, normalize [os_path_abspath fs folder_or_file]);
    let relative_path := os_path_basename path in
    mtime ← read_os (λ fs, os_path_getmtime fs path);
    ret ({[relative_path := mkEntry path relative_path true mtime]} : Snapshot)
  else
    isdir ← read (λ fs, os_path_isdir fs folder_or_file);
    if negb isdir then ret (∅ : Snapshot)
    else
      let base_root := normalize [folder_or_file] in
      let base_depth := len_split base_root in
      let prune root :=
        bool_decide (depth > -1) &&
        bool_decide (len_split (normalize [root]) - base_depth = depth) in
      items ← read (λ fs, os_walk fs folder_or_file prune);
      take_walk base_root items ∅.

(** *** Reporter methods

    The [on_info], [on_start], [on_step] and [on_done] hooks are the override
    points through which an implementation renders an event; what they
    render is not modelled.  Each method records that it was called. *)

Definition called (c : Call) (update : Reporter → Reporter) : M unit := λ w,
  (mkWorld (fs w) (update (reporter w)) (calls w ++ [c]) (printed w) (journal w), Ok tt).

Definition set_total (value : Z) : M unit :=
  called (call_set_total value)
    (λ self, mkReporter (name self) value (amount self) (percent self)).

Definition info (message : string) : M unit := called (call_info message) id.

Definition start (message : string) : M unit := called (call_start message) id.

Definition done (message : string) : M unit := called (call_done message) id.

(** [self.amount += amount] happens before the division; a zero [total]
    raises [ZeroDivisionError] and leaves [percent] as it was. *)
Definition step (amount_ : Z) (message : string) : M unit :=
  called (call_step amount_ message)
    (λ self, mkReporter (name self) (total self) (amount self + amount_) (percent self)) ;;
  (λ w,
    let self := reporter w in
    if bool_decide (total self = 0) then (w, Raise ZeroDivisionError)
    else
      (mkWorld (fs w)
         (mkReporter (name self) (total self) (amount self)
            (percent_of (amount self) (total self)))
         (calls w) (printed w) (journal w), Ok tt)).

(** [reporter = reporter or Reporter('Sync')]: from here on the world's
    reporter is the object the local name refers to. *)
Definition use_reporter (reporter_ : option Reporter) : M unit := λ w,
  (mkWorld (fs w) (default (Reporter_init "Sync" 100) reporter_)
     (calls w) (printed w) (journal w), Ok tt).

(** [snapshot[key]]. *)
Definition getitem (snapshot : Snapshot) (key : string) : M Entry :=
  match snapshot !! key with
  | Some entry => ret entry
  | None => raise (KeyError key)
  end.

Definition len {A} (l : list A) : Z := Z.of_nat (length l).

End operations.

Section reconciliation.
Context `{Platform} `{PySet}.
Local Open Scope prog_scope.

(** ['{}'.format(n)] for an integer. *)
Definition format_int (n : Z) : string := pretty n.

(** The body of the "copy files unique to src to dst" loop, shared by both
    engines up to the message prefix and the two roots. *)
Definition copy_unique (prefix to_root : string) (dry : bool)
    (from_snapshot : Snapshot) (path_key : string) : M unit :=
  entry ← getitem from_snapshot path_key;
  let to_path := normalize [to_root; relative_path entry] in
  step 1 (prefix +:+ relative_path entry) ;;
  if dry then ret tt
  else if isfile entry then copy_file (path entry) to_path
  else create_folder to_path.

(** The body of the deletion loop of [sync]. *)
Definition delete_unique (dry : bool) (dst_snapshot : Snapshot)
    (path_key : string) : M unit :=
  entry ← getitem dst_snapshot path_key;
  step 1 ("R-> Delete " +:+ relative_path entry) ;;
  if dry then ret tt
  else if isfile entry then remove_file (path entry)
  else remove_folder (path entry).

(** The body of the replacement loop of [sync]. *)
Definition replace_changed_one (dry : bool) (src_snapshot dst_snapshot : Snapshot)
    (path_key : string) : M unit :=
  src_entry ← getitem src_snapshot path_key;
  dst_entry ← getitem dst_snapshot path_key;
  step 1 ("R-> Replace " +:+ relative_path dst_entry) ;;
  if dry then ret tt
  else if isfile src_entry then copy_file (path src_entry) (path dst_entry)
  else ret tt.

Definition sync (src dst : string) (replace_changed delete_files dry : bool)
    (reporter_ : option Reporter) : M unit :=
  use_reporter reporter_ ;;
  let src := normalize [src] in
  let dst := normalize [dst] in
  src_snapshot ← take src (-1);
  dst_snapshot ← take dst (-1);
  snapshot_diff ← lift (diff src_snapshot dst_snapshot);
  (* Calculate total number of operations *)
  let number_of_operations := 0 in
  let number_of_operations := number_of_operations + len (left_only snapshot_diff) in
  let number_of_operations :=
    if delete_files then number_of_operations + len (right_only snapshot_diff)
    else number_of_operations in
  let number_of_operations :=
    if replace_changed then number_of_operations + len (changed snapshot_diff)
    else number_of_operations in
  (* Start reporting *)
  set_total number_of_operations ;;
  if bool_decide (number_of_operations ≠ 0) then
    start (src +:+ " --> " +:+ dst) ;;
    info ("Syncing " +:+ format_int number_of_operations +:+ " files.") ;;
    (* Copy files unique to src to dst *)
    for_each (left_only snapshot_diff) (copy_unique "R-> Copy " dst dry src_snapshot) ;;
    (if delete_files then
       for_each (depth_sort (right_only snapshot_diff)) (delete_unique dry dst_snapshot)
     else ret tt) ;;
    (* Replace changed files with newer version *)
    (if replace_changed then
       for_each (changed snapshot_diff)
         (replace_changed_one dry src_snapshot dst_snapshot)
     else ret tt) ;;
    done "Done!"
  else
    start (src +:+ " --> " +:+ dst) ;;
    done "Done! Nothing to sync.".

(** The body of the replacement loop of [sync_bidirectional]. *)
Definition replace_newer_one (dry : bool) (src_snapshot dst_snapshot : Snapshot)
    (path_key : string) : M unit :=
  src_entry ← getitem src_snapshot path_key;
  dst_entry ← getitem dst_snapshot path_key;
  if bool_decide (mtime src_entry > mtime dst_entry) then
    step 1 ("R-> Replace " +:+ relative_path dst_entry) ;;
    if dry then ret tt
    else if isfile src_entry then copy_file (path src_entry) (path dst_entry)
    else ret tt
  else
    step 1 ("<-L Replace " +:+ relative_path src_entry) ;;
    if dry then ret tt
    else if isfile dst_entry then copy_file (path dst_entry) (path src_entry)
    else ret tt.

Definition sync_bidirectional (src dst : string) (replace_changed dry : bool)
    (reporter_ : option Reporter) : M unit :=
  use_reporter reporter_ ;;
  let src := normalize [src] in
  let dst := normalize [dst] in
  src_snapshot ← take src (-1);
  dst_snapshot ← take dst (-1);
  snapshot_diff ← lift (diff src_snapshot dst_snapshot);
  (* Calculate total number of operations *)
  let number_of_operations := 0 in
  let number_of_operations := number_of_operations + len (left_only snapshot_diff) in
  let number_of_operations := number_of_operations + len (right_only snapshot_diff) in
  let number_of_operations :=
    if replace_changed then number_of_operations + len (changed snapshot_diff)
    else number_of_operations in
  (* Start reporting *)
  set_total number_of_operations ;;
  if bool_decide (number_of_operations ≠ 0) then
    start (src +:+ " <-> " +:+ dst) ;;
    info ("Syncing " +:+ format_int number_of_operations +:+ " files.") ;;
    (* Copy files unique to src to dst *)
    for_each (left_only snapshot_diff) (copy_unique "R-> Copy " dst dry src_snapshot) ;;
    (* Copy files unique to dst to src *)
    for_each (right_only snapshot_diff) (copy_unique "<-L Copy " src dry dst_snapshot) ;;
    (* Replace changed files with newer version *)
    (if replace_changed then
       for_each (changed snapshot_diff)
         (replace_newer_one dry src_snapshot dst_snapshot)
     else ret tt) ;;
    done "Done!"
  else
    start (src +:+ " <-> " +:+ dst) ;;
    done "Done! Nothing to sync.".

End reconciliation.

(* ===================================================================== *)
(** ** A platform to run on: an in-memory POSIX-like file system *)
(* ===================================================================== *)

(** The engines are stated over any [Platform].  To run them on concrete
    trees this module provides one: path functions that follow
    [posixpath], and a file system that is a finite map from absolute
    normalized paths to nodes.  The root directory always exists.  A
    directory's mtime is not touched when its children change. *)
Module MemFS.

Inductive Node : Type :=
  | File (mtime : Z) (content : string)
  | Dir (mtime : Z).

Record State : Type := mkState {
  cwd : string;
  clock : Z;
  nodes : gmap string Node
}.

Definition slash : ascii := "/"%char.

(** [s.split('/')]. *)
Fixpoint split (s : string) : list string :=
  match s with
  | EmptyString => [EmptyString]
  | String c s' =>
      if Ascii.eqb c slash then EmptyString :: split s'
      else match split s' with
           | [] => [String c EmptyString]
           | w :: ws => String c w :: ws
           end
  end.

(** ['/'.join(comps)]. *)
Fixpoint join_slash (comps : list string) : string :=
  match comps with
  | [] => ""
  | [c] => c
  | c :: cs => c +:+ "/" +:+ join_slash cs
  end.

Definition startswith_slash (s : string) : bool :=
  match s with String c _ => Ascii.eqb c slash | EmptyString => false end.

Fixpoint endswith_slash (s : string) : bool :=
  match s with
  | EmptyString => false
  | String c EmptyString => Ascii.eqb c slash
  | String _ s' => endswith_slash s'
  end.

(** [posixpath.join(a, *p)]. *)
Definition join2 (path b : string) : string :=
  if startswith_slash b then b
  else if bool_decide (path = "") || endswith_slash path then path +:+ b
  else path +:+ "/" +:+ b.

Definition join (parts : list string) : string :=
  match parts with
  | [] => ""
  | a :: p => foldl join2 a p
  end.

(** The component loop of [posixpath.normpath]; [new_comps] is kept
    reversed. *)
Definition normpath_comp (initial_slashes : bool) (new_comps : list string)
    (comp : string) : list string :=
  if bool_decide (comp = "") || bool_decide (comp = ".") then new_comps
  else if negb (bool_decide (comp = ".."))
          || (negb initial_slashes && bool_decide (new_comps = []))
          || bool_decide (head new_comps = Some "..")
  then comp :: new_comps
  else tail new_comps.

Definition normpath (path : string) : string :=
  if bool_decide (path = "") then "."
  else
    let initial_slashes := startswith_slash path in
    let double :=
      match path with
      | String _ (String c2 rest) =>
          initial_slashes && Ascii.eqb c2 slash && negb (startswith_slash rest)
      | _ => false
      end in
    let comps := rev (foldl (normpath_comp initial_slashes) [] (split path)) in
    let path := join_slash comps in
    let path :=
      if initial_slashes then (if double then "//" else "/") +:+ path else path in
    if bool_decide (path = "") then "." else path.

Definition abspath (fs : State) (path : string) : string :=
  normpath (if startswith_slash path then path else join [cwd fs; path]).

Fixpoint common_prefix_length (l1 l2 : list string) : nat :=
  match l1, l2 with
  | x :: l1', y :: l2' =>
      if bool_decide (x = y) then S (common_prefix_length l1' l2') else 0%nat
  | _, _ => 0%nat
  end.

(** [posixpath.relpath(path, start)]. *)
Definition relpath (fs : State) (path start : string) : string :=
  let nonempty := filter (λ x : string, x ≠ "") in
  let start_list := nonempty (split (abspath fs start)) in
  let path_list := nonempty (split (abspath fs path)) in
  let i := common_prefix_length start_list path_list in
  let rel_list := (replicate (length start_list - i) ".." ++ drop i path_list)%list in
  match rel_list with
  | [] => "."
  | _ => join rel_list
  end.

Fixpoint take_while {A} (f : A → bool) (l : list A) : list A :=
  match l with
  | x :: l' => if f x then x :: take_while f l' else []
  | [] => []
  end.

Fixpoint drop_while {A} (f : A → bool) (l : list A) : list A :=
  match l with
  | x :: l' => if f x then drop_while f l' else l
  | [] => []
  end.

(** [posixpath.split(p)]: the text up to and including the last slash, and
    the text after it. *)
Definition split_last (p : string) : string * string :=
  let r := rev (list_ascii_of_string p) in
  let tail_rev := take_while (λ c, negb (Ascii.eqb c slash)) r in
  let head_rev := drop (length tail_rev) r in
  (string_of_list_ascii (rev head_rev), string_of_list_ascii (rev tail_rev)).

Definition basename (p : string) : string := snd (split_last p).

Definition dirname (p : string) : string :=
  let head := list_ascii_of_string (fst (split_last p)) in
  if forallb (λ c, Ascii.eqb c slash) head then string_of_list_ascii head
  else string_of_list_ascii (rev (drop_while (λ c, Ascii.eqb c slash) (rev head))).

(** The node at a path, if any. *)
Definition node_at (fs : State) (path : string) : option Node :=
  let p := abspath fs path in
  if bool_decide (p = "/") then Some (Dir 0) else nodes fs !! p.

Definition isfile (fs : State) (path : string) : bool :=
  match node_at fs path with Some (File _ _) => true | _ => false end.

Definition isdir (fs : State) (path : string) : bool :=
  match node_at fs path with Some (Dir _) => true | _ => false end.

Definition getmtime (fs : State) (path : string) : string + Z :=
  match node_at fs path with
  | Some (File m _) | Some (Dir m) => inr m
  | None => inl "No such file or directory"
  end.

(** The entries directly inside the directory at absolute path [p]. *)
Definition children (fs : State) (p : string) : list (string * Node) :=
  omap (λ kv : string * Node,
          if bool_decide (dirname kv.1 = p) && negb (bool_decide (kv.1 = p))
          then Some (basename kv.1, kv.2) else None)
       (map_to_list (nodes fs)).

Definition listdir (fs : State) (path : string) : string + list string :=
  match node_at fs path with
  | Some (Dir _) => inr ((children fs (abspath fs path)).*1)
  | Some (File _ _) => inl "Not a directory"
  | None => inl "No such file or directory"
  end.

Definition is_dir_node (n : Node) : bool :=
  match n with Dir _ => true | File _ _ => false end.

(** [os.walk(top)], top-down; a directory that cannot be listed yields
    nothing.  The recursion is bounded by the number of nodes. *)
Fixpoint walk_from (fuel : nat) (fs : State) (prune : string → bool) (top : string)
    : list (string * list string * list string) :=
  match fuel with
  | O => []
  | S fuel' =>
      if isdir fs top then
        let entries := children fs (abspath fs top) in
        let dirs := (filter (λ e, is_dir_node e.2 = true) entries).*1 in
        let nondirs := (filter (λ e, is_dir_node e.2 = false) entries).*1 in
        (top, dirs, nondirs) ::
          (if prune top then []
           else flat_map (λ d, walk_from fuel' fs prune (join [top; d])) dirs)
      else []
  end.

Definition walk (fs : State) (top : string) (prune : string → bool)
    : list (string * list string * list string) :=
  walk_from (S (size (nodes fs))) fs prune top.

(** The proper ancestors of an absolute normalized path, nearest last;
    the root is left out. *)
Fixpoint ancestors_from (acc : string) (comps : list string) : list string :=
  match comps with
  | [] | [_] => []
  | c :: cs => let acc' := acc +:+ "/" +:+ c in acc' :: ancestors_from acc' cs
  end.

Definition ancestors (p : string) : list string :=
  ancestors_from "" (filter (λ x : string, x ≠ "") (split p)).

Definition is_file_at (fs : State) (p : string) : bool :=
  match nodes fs !! p with Some (File _ _) => true | _ => false end.

(** [os.makedirs(path)]: the leaf must not exist; missing ancestors are
    created. *)
Definition makedirs (path : string) (fs : State) : string + State :=
  let p := abspath fs path in
  match node_at fs p with
  | Some _ => inl "File exists"
  | None =>
      if existsb (is_file_at fs) (ancestors p) then inl "Not a directory"
      else
        let missing := filter (λ a, nodes fs !! a = None) (ancestors p ++ [p])%list in
        inr (mkState (cwd fs) (clock fs + 1)
               (foldr (λ a m, <[a := Dir (clock fs)]> m) (nodes fs) missing))
  end.

Definition remove (path : string) (fs : State) : string + State :=
  match node_at fs path with
  | Some (File _ _) =>
      inr (mkState (cwd fs) (clock fs) (delete (abspath fs path) (nodes fs)))
  | Some (Dir _) => inl "Is a directory"
  | None => inl "No such file or directory"
  end.

Definition rmdir (path : string) (fs : State) : string + State :=
  match node_at fs path with
  | Some (Dir _) =>
      match children fs (abspath fs path) with
      | [] => inr (mkState (cwd fs) (clock fs) (delete (abspath fs path) (nodes fs)))
      | _ :: _ => inl "Directory not empty"
      end
  | Some (File _ _) => inl "Not a directory"
  | None => inl "No such file or directory"
  end.

(** [shutil.copy2(src, dst)]: content and mtime of a regular file are
    written to [dst], or into [dst] when that is a directory. *)
Definition copy2 (src dst : string) (fs : State) : string + State :=
  match node_at fs src with
  | Some (File m c) =>
      let s := abspath fs src in
      let d := if isdir fs dst then join [abspath fs dst; basename s]
               else abspath fs dst in
      if bool_decide (d = s) then inl "Same file"
      else
        match node_at fs (dirname d) with
        | Some (Dir _) =>
            if isdir fs d then inl "Is a directory"
            else inr (mkState (cwd fs) (clock fs) (<[d := File m c]> (nodes fs)))
        | Some (File _ _) => inl "Not a directory"
        | None => inl "No such file or directory"
        end
  | Some (Dir _) => inl "Is a directory"
  | None => inl "No such file or directory"
  end.

Definition platform : Platform := {|
  FS := State;
  os_path_join := join;
  os_path_normpath := normpath;
  os_path_relpath := relpath;
  os_path_abspath := abspath;
  os_path_dirname := dirname;
  os_path_basename := basename;
  os_path_isfile := isfile;
  os_path_isdir := isdir;
  os_path_getmtime := getmtime;
  os_listdir := listdir;
  os_walk := walk;
  os_makedirs := makedirs;
  os_remove := remove;
  os_rmdir := rmdir;
  shutil_copy2 := copy2
|}.

(** A file system holding the given nodes, with working directory [/]. *)
Definition mount (l : list (string * Node)) : State :=
  mkState "/" 1000 (list_to_map l).

(** A world around a file system: a caller that has made no calls yet. *)
Definition world (fs : State) : @World platform :=
  @mkWorld platform fs (Reporter_init "" 0) [] [] [].

End MemFS.

(** Concrete trees to run the engines on, all on [MemFS.platform] with the
    iteration order [elements_order].  The source tree is [/s], the
    destination tree [/t]. *)
Module Trees.
Import MemFS.

(** The destination holds a regular file where the source holds a
    directory with two files in it: nothing can be copied below [/t/a]. *)
Definition blocked : State := mount
  [("/s", Dir 1); ("/s/a", Dir 2);
   ("/s/a/b.txt", File 3 "B"); ("/s/a/c.txt", File 4 "C");
   ("/t", Dir 1); ("/t/a", File 9 "A")].

(** Both trees hold the same file with the same mtime. *)
Definition mirrored : State := mount
  [("/s", Dir 1); ("/s/a.txt", File 5 "A");
   ("/t", Dir 1); ("/t/a.txt", File 5 "A")].

(** One file to copy, one file to delete, one file to replace. *)
Definition plain : State := mount
  [("/s", Dir 1); ("/s/a.txt", File 100 "A"); ("/s/c.txt", File 200 "new");
   ("/t", Dir 1); ("/t/b.txt", File 7 "B"); ("/t/c.txt", File 100 "old")].



(** [x] is a directory in the source and a newer regular file in the
    destination. *)
Definition file_over_directory : State := mount
  [("/s", Dir 1); ("/s/x", Dir 3);
   ("/t", Dir 1); ("/t/x", File 5 "five")].

Definition run_sync (fs : State) (replace_changed delete_files dry : bool)
    : @World platform * result unit :=
  @sync platform elements_order "/s" "/t" replace_changed delete_files dry None
    (world fs).

Definition run_sync_bidirectional (fs : State) (replace_changed dry : bool)
    : @World platform * result unit :=
  @sync_bidirectional platform elements_order "/s" "/t" replace_changed dry None
    (world fs).

End Trees.

(** More trees, on the same platform and iteration order as [Trees]. *)
Module MoreTrees.
Import MemFS.

(** A source tree with a file and a folder holding a file; the destination
    root does not exist. *)
Definition no_destination : State := mount
  [("/s", Dir 1); ("/s/a.txt", File 100 "A");
   ("/s/docs", Dir 2); ("/s/docs/b.txt", File 101 "B")].

(** The destination holds a folder with a file in it, and a file, that the
    source does not have. *)
Definition surplus : State := mount
  [("/s", Dir 1);
   ("/t", Dir 1); ("/t/old", Dir 2); ("/t/old/x.txt", File 3 "X");
   ("/t/y.txt", File 4 "Y")].

(** The source holds a file whose name has a backslash in it. *)
Definition backslash_name : State := mount
  [("/s", Dir 1); ("/s/a\b.txt", File 3 "AB");
   ("/t", Dir 1)].

End MoreTrees.

(** Every entry sits under its own relative path, and its path has no
    backslash. *)
Definition well_keyed (s : Snapshot) : Prop :=
  ∀ k e, s !! k = Some e →
    relative_path e = k ∧ count backslash (path e) = 0%nat.

(* ===================================================================== *)
(** ** Vocabulary for the properties *)
(* ===================================================================== *)

#[global] Instance Entry_inhabited : Inhabited Entry :=
  populate (mkEntry "" "" false 0).

(** No copy failed in this stretch of the journal. *)
Definition clean (js : list Op) : Prop := ∀ s d, op_copy2 s d false ∉ js.

(** How a piece of an engine ends, given the platform calls it made: it
    returns and no copy has failed, or it raises [OSError] and the failed
    copy is the last platform call it made. *)
Inductive ending (js : list Op) : result unit → Prop :=
  | finished : clean js → ending js (Ok tt)
  | aborted js0 s d msg :
      js = js0 ++ [op_copy2 s d false] → clean js0 →
      ending js (Raise (OSError msg)).

(** The sum of the amounts passed to [step] in a sequence of calls. *)
Fixpoint step_sum (cs : list Call) : Z :=
  match cs with
  | [] => 0
  | call_step a _ :: cs' => a + step_sum cs'
  | _ :: cs' => step_sum cs'
  end.

(** The [step] calls of one loop over [keys] whose message is a prefix and
    the relative path of the key's entry in [S]. *)
Definition steps_for (prefix : string) (S : Snapshot) (keys : list string) : list Call :=
  (λ k, call_step 1 (prefix +:+ relative_path (S !!! k))) <$> keys.

(** The [step] call of [sync_bidirectional]'s replacement loop for a key. *)
Definition newer_step (src_snapshot dst_snapshot : Snapshot) (k : string) : Call :=
  if bool_decide (mtime (src_snapshot !!! k) > mtime (dst_snapshot !!! k)) then
    call_step 1 ("R-> Replace " +:+ relative_path (dst_snapshot !!! k))
  else
    call_step 1 ("<-L Replace " +:+ relative_path (src_snapshot !!! k)).

(** All [step] calls of a complete run of [sync], in order. *)
Definition sync_steps (src_snapshot dst_snapshot : Snapshot) (d : Diff)
    (replace_changed delete_files : bool) : list Call :=
  steps_for "R-> Copy " src_snapshot (left_only d) ++
  (if delete_files then steps_for "R-> Delete " dst_snapshot (depth_sort (right_only d))
   else []) ++
  (if replace_changed then steps_for "R-> Replace " dst_snapshot (changed d) else []).

(** All [step] calls of a complete run of [sync_bidirectional], in order. *)
Definition sync_bidirectional_steps (src_snapshot dst_snapshot : Snapshot) (d : Diff)
    (replace_changed : bool) : list Call :=
  steps_for "R-> Copy " src_snapshot (left_only d) ++
  steps_for "<-L Copy " dst_snapshot (right_only d) ++
  (if replace_changed then newer_step src_snapshot dst_snapshot <$> changed d else []).

(** The operation counts the two engines pass to [set_total]. *)
Definition sync_total (d : Diff) (replace_changed delete_files : bool) : Z :=
  len (left_only d) + (if delete_files then len (right_only d) else 0)
  + (if replace_changed then len (changed d) else 0).

Definition sync_bidirectional_total (d : Diff) (replace_changed : bool) : Z :=
  len (left_only d) + len (right_only d)
  + (if replace_changed then len (changed d) else 0).

Section vocabulary.
Context `{Platform}.

(** A piece [c] of an engine, run once the reporter's total is not zero:
    it calls the reporter with a prefix of [expected] (all of it when it
    returns), only appends to the two histories, keeps the total, ends as
    [ending] says, and with [dry] set touches nothing and returns. *)
Definition emits (dry : bool) (expected : list Call) (c : M unit) : Prop :=
  ∀ w, total (reporter w) ≠ 0 →
    ∃ w' r cs js,
      c w = (w', r) ∧
      calls w' = calls w ++ cs ∧
      journal w' = journal w ++ js ∧
      total (reporter w') = total (reporter w) ∧
      ending js r ∧
      (r = Ok tt → cs = expected) ∧
      cs `prefix_of` expected ∧
      (dry = true → fs w' = fs w ∧ js = [] ∧ r = Ok tt).

End vocabulary.

Section run_vocabulary.
Context `{Platform} `{PySet}.

(** A computation that only looks at the file system: it leaves the world
    as it is, its result depends on the file system alone, and it raises
    nothing but [OSError]. *)
Definition reads {A} (c : M A) : Prop :=
  (∀ w, (c w).1 = w) ∧
  (∀ w w', fs w = fs w' → (c w).2 = (c w').2) ∧
  (∀ w e, (c w).2 = Raise e → ∃ msg, e = OSError msg).

(** The tail [k] of an engine, from the first loop to [done('Done!')]. *)
Definition finishing (dry : bool) (steps : list Call) (k : M unit) : Prop :=
  ∀ w, total (reporter w) ≠ 0 →
    ∃ w' r cs js,
      k w = (w', r) ∧
      calls w' = calls w ++ cs ∧
      journal w' = journal w ++ js ∧
      total (reporter w') = total (reporter w) ∧
      ending js r ∧
      (r = Ok tt → cs = steps ++ [call_done "Done!"]) ∧
      (r ≠ Ok tt → cs `prefix_of` steps) ∧
      (dry = true → fs w' = fs w ∧ js = [] ∧ r = Ok tt).

(** The three ways a reconciliation call from world [w] can go, ending in
    world [w'] with result [r].  [src] and [dst] are the normalized roots,
    [header] the message passed to [start]. *)
Inductive run_of (src dst header : string) (total_of : Diff → Z)
    (steps_of : Snapshot → Snapshot → Diff → list Call) (dry : bool)
    (w w' : World) (r : result unit) : Prop :=
  | run_take_failed msg :
      (take src (-1) w).2 = Raise (OSError msg) ∨
        (∃ ss, (take src (-1) w).2 = Ok ss ∧
               (take dst (-1) w).2 = Raise (OSError msg)) →
      r = Raise (OSError msg) →
      fs w' = fs w → calls w' = calls w → journal w' = journal w →
      run_of src dst header total_of steps_of dry w w' r
  | run_nothing_to_sync ss ds d :
      (take src (-1) w).2 = Ok ss → (take dst (-1) w).2 = Ok ds →
      diff ss ds = Ok d →
      total_of d = 0 →
      r = Ok tt →
      fs w' = fs w → journal w' = journal w →
      calls w' = calls w ++
        [call_set_total 0; call_start header; call_done "Done! Nothing to sync."] →
      run_of src dst header total_of steps_of dry w w' r
  | run_synced ss ds d cs js :
      (take src (-1) w).2 = Ok ss → (take dst (-1) w).2 = Ok ds →
      diff ss ds = Ok d →
      total_of d ≠ 0 →
      calls w' = calls w ++
        [call_set_total (total_of d); call_start header;
         call_info ("Syncing " +:+ format_int (total_of d) +:+ " files.")] ++ cs →
      journal w' = journal w ++ js →
      ending js r →
      (r = Ok tt → cs = steps_of ss ds d ++ [call_done "Done!"]) →
      (r ≠ Ok tt → cs `prefix_of` steps_of ss ds d) →
      (dry = true → fs w' = fs w ∧ js = [] ∧ r = Ok tt) →
      run_of src dst header total_of steps_of dry w w' r.

End run_vocabulary.

Section engine_shape.
Context `{Platform} `{PySet}.
Local Open Scope prog_scope.

(** The first lines of both engines: pick the reporter, take the two
    snapshots, diff them. *)
Definition prologue (reporter_ : option Reporter) (src dst : string)
    (k : Snapshot → Snapshot → Diff → M unit) : M unit :=
  use_reporter reporter_ ;;
  src_snapshot ← take src (-1);
  dst_snapshot ← take dst (-1);
  snapshot_diff ← lift (diff src_snapshot dst_snapshot);
  k src_snapshot dst_snapshot snapshot_diff.

(** The "start reporting" block of both engines, followed by the tail [k]
    when there is something to do. *)
Definition report (header : string) (n : Z) (k : M unit) : M unit :=
  set_total n ;;
  if bool_decide (n ≠ 0) then
    start header ;; info ("Syncing " +:+ format_int n +:+ " files.") ;; k
  else start header ;; done "Done! Nothing to sync.".

End engine_shape.

(** [a] is an ancestor of the relative path [p]: a proper prefix of it that
    ends just before a separator. *)
Definition ancestor_of (a p : string) : Prop := ∃ rest, p = a +:+ "/" +:+ rest.

(** The value of the last [set_total] in a sequence of calls. *)
Definition last_total (cs : list Call) : option Z :=
  foldl (λ t c, match c with call_set_total n => Some n | _ => t end) None cs.

(** A [step] call with amount one. *)
Definition unit_step (c : Call) : Prop := ∃ m, c = call_step 1 m.

Definition is_Ok {A} (r : result A) : bool :=
  match r with Ok _ => true | Raise _ => false end.

(** The value of a result known to be [Ok]. *)
Definition taken (r : result Snapshot) : Snapshot :=
  match r with Ok s => s | Raise _ => ∅ end.

Definition diffed (r : result Diff) : Diff :=
  match r with Ok d => d | Raise _ => empty_diff end.


Section copies_vocabulary.
Context `{Platform}.




End copies_vocabulary.

(** The attributes of a [Reporter] after one method call: [set_total]
    stores the value, [step] adds to [amount] and, unless [total] is zero
    (where the division raises), recomputes [percent]; the other methods
    change nothing. *)
Definition Reporter_after (self : Reporter) (c : Call) : Reporter :=
  match c with
  | call_set_total value => mkReporter (name self) value (amount self) (percent self)
  | call_step amount_ _ =>
      mkReporter (name self) (total self) (amount self + amount_)
        (if bool_decide (total self = 0) then percent self
         else percent_of (amount self + amount_) (total self))
  | _ => self
  end.

Section tracks_vocabulary.
Context `{Platform}.

(** [c] changes the reporter only by calling its methods: the reporter it
    leaves is the one it found after the calls it recorded. *)
Definition tracks {A} (c : M A) : Prop :=
  ∀ w, ∃ cs, calls (c w).1 = calls w ++ cs ∧
             reporter (c w).1 = foldl Reporter_after (reporter w) cs.

End tracks_vocabulary.

Section only_vocabulary.
Context `{Platform}.

(** Every platform call [c] makes satisfies [P], however [c] ends. *)
Definition only {A} (P : Op → Prop) (c : M A) : Prop :=
  ∀ w, ∃ js, journal (c w).1 = journal w ++ js ∧ Forall P js.

(** A platform call of a loop that copies the entries of [S] under [keys]
    below [to_root]: for a file, [makedirs] of the parent of the target or
    the copy itself; for a folder, [makedirs] of the target. *)
Definition copy_op (to_root : string) (S : Snapshot) (keys : list string)
    (o : Op) : Prop :=
  ∃ k e ok, k ∈ keys ∧ S !! k = Some e ∧
    let to_path := normalize [to_root; relative_path e] in
    if isfile e then
      o = op_makedirs (os_path_dirname to_path) ok ∨
      o = op_copy2 (path e) to_path ok
    else o = op_makedirs to_path ok.

(** A platform call of the loop that deletes the entries of [S] under
    [keys]: [remove] for a file, [rmdir] for a folder. *)
Definition delete_op (S : Snapshot) (keys : list string) (o : Op) : Prop :=
  ∃ k e ok, k ∈ keys ∧ S !! k = Some e ∧
    o = if isfile e then op_remove (path e) ok else op_rmdir (path e) ok.

(** A platform call of a loop that replaces, for the keys where [chosen]
    holds, the entry of [B] by the entry of [A], a file: [makedirs] of the
    parent of the target or the copy itself. *)
Definition replace_op (chosen : Entry → Entry → Prop) (A B : Snapshot)
    (keys : list string) (o : Op) : Prop :=
  ∃ k a b ok, k ∈ keys ∧ A !! k = Some a ∧ B !! k = Some b ∧
    chosen a b ∧ isfile a = true ∧
    (o = op_makedirs (os_path_dirname (path b)) ok ∨
     o = op_copy2 (path a) (path b) ok).

(** The platform calls [sync] can make, given the snapshots and their
    diff; [dst] is the normalized destination root. *)
Definition sync_op (dst : string) (ss ds : Snapshot) (d : Diff)
    (replace_changed delete_files : bool) (o : Op) : Prop :=
  copy_op dst ss (left_only d) o ∨
  (delete_files = true ∧ delete_op ds (right_only d) o) ∨
  (replace_changed = true ∧ replace_op (λ _ _, True) ss ds (changed d) o).

(** The platform calls [sync_bidirectional] can make; [src] and [dst] are
    the normalized roots. *)
Definition sync_bidirectional_op (src dst : string) (ss ds : Snapshot) (d : Diff)
    (replace_changed : bool) (o : Op) : Prop :=
  copy_op dst ss (left_only d) o ∨
  copy_op src ds (right_only d) o ∨
  (replace_changed = true ∧
   (replace_op (λ a b, mtime a > mtime b) ss ds (changed d) o ∨
    replace_op (λ b a, ¬ mtime a > mtime b) ds ss (changed d) o)).

(** A call that removes something. *)
Definition removal (o : Op) : Prop :=
  ∃ p ok, o = op_remove p ok ∨ o = op_rmdir p ok.

End only_vocabulary.

(* ===================================================================== *)
(** * Properties of [diff] *)
(* ===================================================================== *)

(** The five ways the loop body of [diff] can treat a key, as tests on the
    two snapshots. *)
Definition is_left_only (A B : Snapshot) (k : string) : bool :=
  match A !! k, B !! k with Some _, None => true | _, _ => false end.

Definition is_right_only (A B : Snapshot) (k : string) : bool :=
  match A !! k, B !! k with None, Some _ => true | _, _ => false end.

Definition is_changed (A B : Snapshot) (k : string) : bool :=
  match A !! k, B !! k with
  | Some p, Some n => bool_decide (mtime n ≠ mtime p) && isfile n
  | _, _ => false
  end.

Definition is_common (A B : Snapshot) (k : string) : bool :=
  match A !! k, B !! k with
  | Some p, Some n => bool_decide (mtime n = mtime p)
  | _, _ => false
  end.

(** Present on both sides with different mtimes, and not a file on the
    right: the inner [if] of [diff] has no [else], so such a key is appended
    to no list. *)
Definition is_dropped (A B : Snapshot) (k : string) : bool :=
  match A !! k, B !! k with
  | Some p, Some n => bool_decide (mtime n ≠ mtime p) && negb (isfile n)
  | _, _ => false
  end.

Section diff_facts.
Context `{PySet}.
Implicit Types A B : Snapshot.

Lemma set_iter_elem (X : gset string) k : k ∈ set_iter X ↔ k ∈ X.
Proof. rewrite (set_iter_perm X). apply elem_of_elements. Qed.

Lemma set_iter_NoDup (X : gset string) : NoDup (set_iter X).
Proof. rewrite (set_iter_perm X). apply NoDup_elements. Qed.

Lemma diff_loop_filter A B paths d0 :
  (∀ k, k ∈ paths → k ∈ dom A ∪ dom B) →
  diff_loop A B paths d0 =
    Ok (mkDiff (left_only d0 ++ filter (is_left_only A B) paths)
               (right_only d0 ++ filter (is_right_only A B) paths)
               (changed d0 ++ filter (is_changed A B) paths)
               (common d0 ++ filter (is_common A B) paths)).
Proof.
  revert d0. induction paths as [|k paths IH]; intros d0 Hin.
  - destruct d0; simpl. by rewrite !app_nil_r.
  - assert (Hk : k ∈ dom A ∪ dom B) by (apply Hin; left).
    assert (Hrest : ∀ k', k' ∈ paths → k' ∈ dom A ∪ dom B)
      by (intros k' ?; apply Hin; by right).
    simpl. unfold diff_step.
    rewrite !filter_cons.
    unfold is_left_only, is_right_only, is_changed, is_common.
    destruct (A !! k) as [p|] eqn:HA, (B !! k) as [n|] eqn:HB; simpl.
    + destruct (bool_decide (mtime n ≠ mtime p)) eqn:Hm; simpl.
      * apply bool_decide_eq_true in Hm.
        rewrite (bool_decide_eq_false_2 (mtime n = mtime p)) by done.
        destruct (isfile n); simpl; rewrite IH by done; simpl;
          by rewrite <- ?app_assoc.
      * apply bool_decide_eq_false in Hm.
        rewrite (bool_decide_eq_true_2 (mtime n = mtime p)) by lia.
        simpl. rewrite IH by done; simpl. by rewrite <- ?app_assoc.
    + rewrite IH by done; simpl. by rewrite <- ?app_assoc.
    + rewrite IH by done; simpl. by rewrite <- ?app_assoc.
    + exfalso. apply elem_of_union in Hk as [Hk|Hk];
        apply elem_of_dom in Hk as [? Hk]; congruence.
Qed.

(** [diff] never raises, and each of its lists is the iteration order
    filtered by one test. *)
Lemma diff_filter A B :
  diff A B =
    Ok (mkDiff (filter (is_left_only A B) (set_iter (dom A ∪ dom B)))
               (filter (is_right_only A B) (set_iter (dom A ∪ dom B)))
               (filter (is_changed A B) (set_iter (dom A ∪ dom B)))
               (filter (is_common A B) (set_iter (dom A ∪ dom B)))).
Proof.
  unfold diff. rewrite diff_loop_filter; [done|].
  intros k. apply set_iter_elem.
Qed.

End diff_facts.

Section diff_membership.
Context `{PySet}.
Implicit Types A B : Snapshot.

Lemma diff_total A B : ∃ d, diff A B = Ok d.
Proof. eexists. apply diff_filter. Qed.

Lemma elem_of_left_only A B d k :
  diff A B = Ok d → k ∈ left_only d ↔ is_left_only A B k = true.
Proof.
  rewrite diff_filter. intros [= <-]. simpl.
  rewrite list_elem_of_filter, set_iter_elem, elem_of_union, !elem_of_dom.
  unfold is_left_only.
  destruct (A !! k), (B !! k); simpl; intuition (try done; eauto).
Qed.

Lemma elem_of_right_only A B d k :
  diff A B = Ok d → k ∈ right_only d ↔ is_right_only A B k = true.
Proof.
  rewrite diff_filter. intros [= <-]. simpl.
  rewrite list_elem_of_filter, set_iter_elem, elem_of_union, !elem_of_dom.
  unfold is_right_only.
  destruct (A !! k), (B !! k); simpl; intuition (try done; eauto).
Qed.

Lemma elem_of_changed A B d k :
  diff A B = Ok d → k ∈ changed d ↔ is_changed A B k = true.
Proof.
  rewrite diff_filter. intros [= <-]. simpl.
  rewrite list_elem_of_filter, set_iter_elem, elem_of_union, !elem_of_dom.
  unfold is_changed.
  destruct (A !! k), (B !! k); simpl;
    rewrite ?Is_true_true; intuition (try done; eauto).
Qed.

Lemma elem_of_common A B d k :
  diff A B = Ok d → k ∈ common d ↔ is_common A B k = true.
Proof.
  rewrite diff_filter. intros [= <-]. simpl.
  rewrite list_elem_of_filter, set_iter_elem, elem_of_union, !elem_of_dom.
  unfold is_common.
  destruct (A !! k), (B !! k); simpl;
    rewrite ?Is_true_true; intuition (try done; eauto).
Qed.

(** No list of the result repeats a key. *)
Lemma diff_NoDup A B d :
  diff A B = Ok d →
  NoDup (left_only d) ∧ NoDup (right_only d) ∧ NoDup (changed d) ∧ NoDup (common d).
Proof.
  rewrite diff_filter. intros [= <-]. simpl.
  repeat split; apply NoDup_filter, set_iter_NoDup.
Qed.

(** The four lists are pairwise disjoint. *)
Lemma diff_disjoint A B d k :
  diff A B = Ok d →
  ¬ (k ∈ left_only d ∧ k ∈ right_only d) ∧
  ¬ (k ∈ left_only d ∧ k ∈ changed d) ∧
  ¬ (k ∈ left_only d ∧ k ∈ common d) ∧
  ¬ (k ∈ right_only d ∧ k ∈ changed d) ∧
  ¬ (k ∈ right_only d ∧ k ∈ common d) ∧
  ¬ (k ∈ changed d ∧ k ∈ common d).
Proof.
  intros Hd.
  rewrite (elem_of_left_only _ _ _ _ Hd), (elem_of_right_only _ _ _ _ Hd),
    (elem_of_changed _ _ _ _ Hd), (elem_of_common _ _ _ _ Hd).
  unfold is_left_only, is_right_only, is_changed, is_common.
  destruct (A !! k) as [p|], (B !! k) as [n|]; simpl;
    repeat split; try (intros [? ?]; discriminate).
  intros [H1 H2]. apply andb_true_iff in H1 as [H1 _].
  apply bool_decide_eq_true in H1, H2. done.
Qed.

(** Every key of either snapshot is in one of the four lists, or is one of
    the keys the loop body drops. *)
Lemma diff_cover A B d k :
  diff A B = Ok d →
  k ∈ dom A ∪ dom B ↔
    k ∈ left_only d ∨ k ∈ right_only d ∨ k ∈ changed d ∨ k ∈ common d ∨
    is_dropped A B k = true.
Proof.
  intros Hd.
  rewrite (elem_of_left_only _ _ _ _ Hd), (elem_of_right_only _ _ _ _ Hd),
    (elem_of_changed _ _ _ _ Hd), (elem_of_common _ _ _ _ Hd).
  rewrite elem_of_union, !elem_of_dom.
  unfold is_left_only, is_right_only, is_changed, is_common, is_dropped.
  destruct (A !! k) as [p|], (B !! k) as [n|]; simpl.
  - split; [intros _|eauto].
    destruct (decide (mtime n = mtime p)) as [Heq|Hne].
    + do 3 right. left. by apply bool_decide_eq_true.
    + rewrite (bool_decide_eq_true_2 _ Hne). simpl.
      destruct (isfile n); simpl; eauto 6.
  - split; eauto.
  - split; eauto 6.
  - split; [intros [[? [=]]|[? [=]]]|].
    intros [?|[?|[?|[?|?]]]]; discriminate.
Qed.

(** A dropped key is in none of the four lists. *)
Lemma diff_dropped A B d k :
  diff A B = Ok d → is_dropped A B k = true →
  (k ∉ left_only d) ∧ (k ∉ right_only d) ∧ (k ∉ changed d) ∧ (k ∉ common d).
Proof.
  intros Hd.
  rewrite (elem_of_left_only _ _ _ _ Hd), (elem_of_right_only _ _ _ _ Hd),
    (elem_of_changed _ _ _ _ Hd), (elem_of_common _ _ _ _ Hd).
  unfold is_left_only, is_right_only, is_changed, is_common, is_dropped.
  destruct (A !! k) as [p|], (B !! k) as [n|]; simpl; try done.
  intros [Hm Hf]%andb_true_iff. apply bool_decide_eq_true in Hm.
  apply negb_true_iff in Hf. rewrite Hf, andb_false_r.
  rewrite (bool_decide_eq_false_2 _ Hm). done.
Qed.

(** What a key of each list looks like in the two snapshots. *)
Lemma left_only_lookup A B d k :
  diff A B = Ok d → k ∈ left_only d → is_Some (A !! k) ∧ B !! k = None.
Proof.
  intros Hd. rewrite (elem_of_left_only _ _ _ _ Hd). unfold is_left_only.
  destruct (A !! k), (B !! k); try done; eauto.
Qed.

Lemma right_only_lookup A B d k :
  diff A B = Ok d → k ∈ right_only d → A !! k = None ∧ is_Some (B !! k).
Proof.
  intros Hd. rewrite (elem_of_right_only _ _ _ _ Hd). unfold is_right_only.
  destruct (A !! k), (B !! k); try done; eauto.
Qed.

Lemma changed_lookup A B d k :
  diff A B = Ok d → k ∈ changed d →
  ∃ p n, A !! k = Some p ∧ B !! k = Some n ∧ mtime n ≠ mtime p ∧ isfile n = true.
Proof.
  intros Hd. rewrite (elem_of_changed _ _ _ _ Hd). unfold is_changed.
  destruct (A !! k) as [p|], (B !! k) as [n|]; try done.
  intros [Hm Hf]%andb_true_iff. apply bool_decide_eq_true in Hm. eauto 6.
Qed.

End diff_membership.

(* ===================================================================== *)
(** * Properties of the file operations and the engines *)
(* ===================================================================== *)

Section engine_facts.
Context `{Platform} `{PySet}.
Local Open Scope prog_scope.

Lemma clean_nil : clean [].
Proof. intros s d Hin. by apply elem_of_nil in Hin. Qed.

Lemma clean_app js1 js2 : clean js1 → clean js2 → clean (js1 ++ js2).
Proof.
  intros Hc1 Hc2 s d Hin.
  apply elem_of_app in Hin as [Hin|Hin]; [by eapply Hc1|by eapply Hc2].
Qed.

Lemma clean_singleton o : (∀ s d, o ≠ op_copy2 s d false) → clean [o].
Proof.
  intros Ho s d Hin. apply list_elem_of_singleton in Hin. by eapply Ho.
Qed.

Lemma ending_app js1 js2 r : clean js1 → ending js2 r → ending (js1 ++ js2) r.
Proof.
  intros Hc1 [Hc2|js0 s d msg -> Hc0].
  - apply finished. by apply clean_app.
  - rewrite app_assoc. eapply aborted; [done|]. by apply clean_app.
Qed.

Lemma ending_Ok_clean js : ending js (Ok tt) → clean js.
Proof. by inversion 1. Qed.

(** *** Composition *)

Lemma emits_ret dry : emits dry [] (ret tt).
Proof.
  intros w _. exists w, (Ok tt), [], []. rewrite !app_nil_r.
  repeat split; auto using finished, clean_nil.
Qed.

Lemma emits_bind dry e1 e2 (c1 c2 : M unit) :
  emits dry e1 c1 → emits dry e2 c2 → emits dry (e1 ++ e2) (c1 ;; c2).
Proof.
  intros He1 He2 w Hw.
  destruct (He1 w Hw) as (w1 & r1 & cs1 & js1 & Hrun1 & Hc1 & Hj1 & Ht1 & Hend1 & Hok1 & Hp1 & Hd1).
  unfold bind. rewrite Hrun1.
  destruct r1 as [[]|e].
  - assert (Hw1 : total (reporter w1) ≠ 0) by congruence.
    destruct (He2 w1 Hw1) as (w2 & r2 & cs2 & js2 & Hrun2 & Hc2 & Hj2 & Ht2 & Hend2 & Hok2 & Hp2 & Hd2).
    exists w2, r2, (e1 ++ cs2), (js1 ++ js2).
    rewrite Hok1 in Hc1 by done.
    split; [done|]. split; [by rewrite Hc2, Hc1, app_assoc|].
    split; [by rewrite Hj2, Hj1, app_assoc|].
    split; [congruence|].
    split; [apply ending_app; [by apply ending_Ok_clean|done]|].
    split; [intros Hr; by rewrite Hok2|].
    split; [by apply prefix_app|].
    intros Hdry. destruct (Hd1 Hdry) as (Hf1 & -> & _), (Hd2 Hdry) as (Hf2 & -> & ->).
    split; [congruence|done].
  - exists w1, (Raise e), cs1, js1.
    split; [done|]. split; [done|]. split; [done|]. split; [done|]. split; [done|].
    split; [done|]. split; [by apply prefix_app_r|].
    intros Hdry. by destruct (Hd1 Hdry) as (_ & _ & ?).
Qed.

Lemma emits_for_each {A} dry (msg : A → Call) (body : A → M unit) (l : list A) :
  (∀ k, k ∈ l → emits dry [msg k] (body k)) →
  emits dry (msg <$> l) (for_each l body).
Proof.
  induction l as [|k l IH]; intros Hbody.
  - apply emits_ret.
  - change (emits dry ([msg k] ++ (msg <$> l)) (body k ;; for_each l body)).
    apply emits_bind.
    + apply Hbody. by left.
    + apply IH. intros k' Hk'. apply Hbody. by right.
Qed.

Lemma emits_if dry (b : bool) e (c : M unit) :
  emits dry e c → emits dry (if b then e else []) (if b then c else ret tt).
Proof. destruct b; [done|intros _; apply emits_ret]. Qed.

Lemma emits_getitem dry e (S : Snapshot) k entry (body : Entry → M unit) :
  S !! k = Some entry → emits dry e (body entry) →
  emits dry e (entry ← getitem S k; body entry).
Proof.
  intros Hk Hb w Hw. unfold bind, getitem. rewrite Hk. simpl. by apply Hb.
Qed.

(** *** Reporter methods *)

Lemma emits_called dry c u :
  (∀ r, total (u r) = total r) → emits dry [c] (called c u).
Proof.
  intros Hu w Hw. eexists _, (Ok tt), [c], []. unfold called; simpl.
  rewrite app_nil_r.
  repeat split; simpl; auto using finished, clean_nil.
Qed.

Lemma emits_start dry m : emits dry [call_start m] (start m).
Proof. by apply emits_called. Qed.

Lemma emits_info dry m : emits dry [call_info m] (info m).
Proof. by apply emits_called. Qed.

Lemma emits_done dry m : emits dry [call_done m] (done m).
Proof. by apply emits_called. Qed.

Lemma emits_step dry a m : emits dry [call_step a m] (step a m).
Proof.
  intros w Hw. unfold step, bind, called; simpl.
  rewrite bool_decide_eq_false_2 by done.
  eexists _, (Ok tt), [call_step a m], []. simpl. rewrite app_nil_r.
  repeat split; auto using finished, clean_nil.
Qed.

End engine_facts.

Section file_operation_facts.
Context `{Platform}.
Local Open Scope prog_scope.

(** *** What each file operation does, case by case *)

Lemma remove_file_run path w :
  remove_file path w =
    match os_remove path (fs w) with
    | inr fs' =>
        (mkWorld fs' (reporter w) (calls w) (printed w)
           (journal w ++ [op_remove path true]), Ok tt)
    | inl msg =>
        (mkWorld (fs w) (reporter w) (calls w) (printed w ++ [OSError msg])
           (journal w ++ [op_remove path false]), Ok tt)
    end.
Proof.
  unfold remove_file, try_except, mutate, print.
  by destruct (os_remove path (fs w)).
Qed.

Lemma remove_folder_run path w :
  remove_folder path w =
    match os_listdir (fs w) path with
    | inl msg =>
        (mkWorld (fs w) (reporter w) (calls w) (printed w ++ [OSError msg])
           (journal w), Ok tt)
    | inr (_ :: _) => (w, Ok tt)
    | inr [] =>
        match os_rmdir path (fs w) with
        | inr fs' =>
            (mkWorld fs' (reporter w) (calls w) (printed w)
               (journal w ++ [op_rmdir path true]), Ok tt)
        | inl msg =>
            (mkWorld (fs w) (reporter w) (calls w) (printed w ++ [OSError msg])
               (journal w ++ [op_rmdir path false]), Ok tt)
        end
    end.
Proof.
  unfold remove_folder, try_except, bind, read_os, mutate, print, ret.
  destruct (os_listdir (fs w) path) as [msg|[|x l]]; simpl; try done.
  by destruct (os_rmdir path (fs w)).
Qed.

Lemma create_folder_run path w :
  create_folder path w =
    if os_path_isdir (fs w) path then (w, Ok tt)
    else
      match os_makedirs path (fs w) with
      | inr fs' =>
          (mkWorld fs' (reporter w) (calls w) (printed w)
             (journal w ++ [op_makedirs path true]), Ok tt)
      | inl msg =>
          (mkWorld (fs w) (reporter w) (calls w) (printed w ++ [OSError msg])
             (journal w ++ [op_makedirs path false]), Ok tt)
      end.
Proof.
  unfold create_folder, try_except, bind, read, mutate, print, ret.
  destruct (os_path_isdir (fs w) path); simpl; try done.
  by destruct (os_makedirs path (fs w)).
Qed.

Lemma create_folder_Ok path w : (create_folder path w).2 = Ok tt.
Proof.
  rewrite create_folder_run.
  destruct (os_path_isdir (fs w) path); [done|].
  by destruct (os_makedirs path (fs w)).
Qed.

Lemma copy_file_run src dst w :
  copy_file src dst w =
    let w1 := (create_folder (os_path_dirname dst) w).1 in
    match shutil_copy2 src dst (fs w1) with
    | inr fs' =>
        (mkWorld fs' (reporter w1) (calls w1) (printed w1)
           (journal w1 ++ [op_copy2 src dst true]), Ok tt)
    | inl msg =>
        (mkWorld (fs w1) (reporter w1) (calls w1) (printed w1)
           (journal w1 ++ [op_copy2 src dst false]), Raise (OSError msg))
    end.
Proof.
  unfold copy_file, bind.
  pose proof (create_folder_Ok (os_path_dirname dst) w) as Hok.
  destruct (create_folder (os_path_dirname dst) w) as [w1 r1]; simpl in *.
  subst r1. done.
Qed.

(** *** The file operations as pieces of an engine *)

Lemma emits_remove_file path : emits false [] (remove_file path).
Proof.
  intros w Hw. rewrite remove_file_run.
  destruct (os_remove path (fs w)) as [msg|fs'];
    eexists _, (Ok tt), [], [_]; simpl; rewrite app_nil_r;
    (repeat split; simpl; auto; try done;
     apply finished, clean_singleton; done).
Qed.

Lemma emits_remove_folder path : emits false [] (remove_folder path).
Proof.
  intros w Hw. rewrite remove_folder_run.
  destruct (os_listdir (fs w) path) as [msg|[|x l]].
  - eexists _, (Ok tt), [], []; simpl; rewrite !app_nil_r.
    repeat split; simpl; auto using finished, clean_nil; done.
  - destruct (os_rmdir path (fs w)) as [msg|fs'];
      eexists _, (Ok tt), [], [_]; simpl; rewrite app_nil_r;
      (repeat split; simpl; auto; try done;
       apply finished, clean_singleton; done).
  - eexists _, (Ok tt), [], []; simpl; rewrite !app_nil_r.
    repeat split; simpl; auto using finished, clean_nil; done.
Qed.

Lemma emits_create_folder path : emits false [] (create_folder path).
Proof.
  intros w Hw. rewrite create_folder_run.
  destruct (os_path_isdir (fs w) path).
  - eexists _, (Ok tt), [], []; simpl; rewrite !app_nil_r.
    repeat split; simpl; auto using finished, clean_nil; done.
  - destruct (os_makedirs path (fs w)) as [msg|fs'];
      eexists _, (Ok tt), [], [_]; simpl; rewrite app_nil_r;
      (repeat split; simpl; auto; try done;
       apply finished, clean_singleton; done).
Qed.

Lemma emits_copy2 src dst :
  emits false [] (mutate (op_copy2 src dst) (shutil_copy2 src dst)).
Proof.
  intros w Hw. unfold mutate.
  destruct (shutil_copy2 src dst (fs w)) as [msg|fs'].
  - eexists _, (Raise (OSError msg)), [], [_]; simpl; rewrite app_nil_r.
    repeat split; simpl; auto; try done.
    eapply (aborted _ []); [done|apply clean_nil].
  - eexists _, (Ok tt), [], [_]; simpl; rewrite app_nil_r.
    repeat split; simpl; auto; try done.
    apply finished, clean_singleton; done.
Qed.

Lemma emits_copy_file src dst : emits false [] (copy_file src dst).
Proof.
  apply (emits_bind false [] []); [apply emits_create_folder|apply emits_copy2].
Qed.

End file_operation_facts.

Section loop_body_facts.
Context `{Platform}.
Local Open Scope prog_scope.

Lemma emits_copy_unique prefix to_root dry (S : Snapshot) k :
  is_Some (S !! k) →
  emits dry [call_step 1 (prefix +:+ relative_path (S !!! k))]
    (copy_unique prefix to_root dry S k).
Proof.
  intros [entry Hk]. rewrite (lookup_total_correct _ _ _ Hk).
  unfold copy_unique. eapply emits_getitem; [done|].
  apply (emits_bind dry [_] []); [apply emits_step|].
  destruct dry; [apply emits_ret|].
  destruct (isfile entry); [apply emits_copy_file|apply emits_create_folder].
Qed.

Lemma emits_delete_unique dry (S : Snapshot) k :
  is_Some (S !! k) →
  emits dry [call_step 1 ("R-> Delete " +:+ relative_path (S !!! k))]
    (delete_unique dry S k).
Proof.
  intros [entry Hk]. rewrite (lookup_total_correct _ _ _ Hk).
  unfold delete_unique. eapply emits_getitem; [done|].
  apply (emits_bind dry [_] []); [apply emits_step|].
  destruct dry; [apply emits_ret|].
  destruct (isfile entry); [apply emits_remove_file|apply emits_remove_folder].
Qed.

Lemma emits_replace_changed_one dry (A B : Snapshot) k :
  is_Some (A !! k) → is_Some (B !! k) →
  emits dry [call_step 1 ("R-> Replace " +:+ relative_path (B !!! k))]
    (replace_changed_one dry A B k).
Proof.
  intros [se Hs] [de Hd]. rewrite (lookup_total_correct _ _ _ Hd).
  unfold replace_changed_one.
  eapply emits_getitem; [done|]. eapply emits_getitem; [done|].
  apply (emits_bind dry [_] []); [apply emits_step|].
  destruct dry; [apply emits_ret|].
  destruct (isfile se); [apply emits_copy_file|apply emits_ret].
Qed.

Lemma emits_replace_newer_one dry (A B : Snapshot) k :
  is_Some (A !! k) → is_Some (B !! k) →
  emits dry [newer_step A B k] (replace_newer_one dry A B k).
Proof.
  intros [se Hs] [de Hd]. unfold newer_step.
  rewrite (lookup_total_correct _ _ _ Hs), (lookup_total_correct _ _ _ Hd).
  unfold replace_newer_one.
  eapply emits_getitem; [done|]. eapply emits_getitem; [done|].
  destruct (bool_decide (mtime se > mtime de)).
  - apply (emits_bind dry [_] []); [apply emits_step|].
    destruct dry; [apply emits_ret|].
    destruct (isfile se); [apply emits_copy_file|apply emits_ret].
  - apply (emits_bind dry [_] []); [apply emits_step|].
    destruct dry; [apply emits_ret|].
    destruct (isfile de); [apply emits_copy_file|apply emits_ret].
Qed.

(** The three loops, as pieces. *)
Lemma emits_copy_loop prefix to_root dry (S : Snapshot) keys :
  (∀ k, k ∈ keys → is_Some (S !! k)) →
  emits dry (steps_for prefix S keys)
    (for_each keys (copy_unique prefix to_root dry S)).
Proof.
  intros Hkeys. apply emits_for_each. intros k Hk.
  apply emits_copy_unique; auto.
Qed.

Lemma emits_delete_loop dry (S : Snapshot) keys :
  (∀ k, k ∈ keys → is_Some (S !! k)) →
  emits dry (steps_for "R-> Delete " S keys) (for_each keys (delete_unique dry S)).
Proof.
  intros Hkeys. apply emits_for_each. intros k Hk.
  apply emits_delete_unique; auto.
Qed.

Lemma emits_replace_loop dry (A B : Snapshot) keys :
  (∀ k, k ∈ keys → is_Some (A !! k) ∧ is_Some (B !! k)) →
  emits dry (steps_for "R-> Replace " B keys)
    (for_each keys (replace_changed_one dry A B)).
Proof.
  intros Hkeys. apply emits_for_each. intros k Hk.
  apply emits_replace_changed_one; by apply Hkeys.
Qed.

Lemma emits_newer_loop dry (A B : Snapshot) keys :
  (∀ k, k ∈ keys → is_Some (A !! k) ∧ is_Some (B !! k)) →
  emits dry (newer_step A B <$> keys) (for_each keys (replace_newer_one dry A B)).
Proof.
  intros Hkeys. apply emits_for_each. intros k Hk.
  apply emits_replace_newer_one; by apply Hkeys.
Qed.

End loop_body_facts.

Section take_facts.
Context `{Platform}.
Local Open Scope prog_scope.

Lemma reads_ret {A} (a : A) : reads (ret a).
Proof. repeat split; simpl; try done. Qed.

Lemma reads_read {A} (q : FS → A) : reads (read q).
Proof.
  repeat split; simpl; try done. intros w w' Hfs. unfold read; simpl. by rewrite Hfs.
Qed.

Lemma reads_read_os {A} (q : FS → string + A) : reads (read_os q).
Proof.
  unfold read_os. split; [|split].
  - intros w. by destruct (q (fs w)).
  - intros w w' Hfs. rewrite Hfs. by destruct (q (fs w')).
  - intros w e. destruct (q (fs w)); simpl; [|done]. intros [= <-]. eauto.
Qed.

Lemma reads_bind {A B} (c : M A) (k : A → M B) :
  reads c → (∀ a, reads (k a)) → reads (bind c k).
Proof.
  intros (Hc1 & Hc2 & Hc3) Hk. unfold bind. split; [|split].
  - intros w. specialize (Hc1 w). destruct (c w) as [w1 [a|e]]; simpl in *; [|done].
    subst w1. apply Hk.
  - intros w w' Hfs. pose proof (Hc2 w w' Hfs) as Hr.
    pose proof (Hc1 w) as H1. pose proof (Hc1 w') as H1'.
    destruct (c w) as [w1 r1], (c w') as [w1' r1']; simpl in *. subst.
    destruct r1' as [a|e]; [|done]. by apply Hk.
  - intros w e. pose proof (Hc1 w) as H1. pose proof (Hc3 w) as H3.
    destruct (c w) as [w1 [a|e1]]; simpl in *.
    + subst w1. apply Hk.
    + intros [= <-]. by apply H3.
Qed.

Lemma reads_take_file base_root root snapshot f :
  reads (take_file base_root root snapshot f).
Proof.
  unfold take_file.
  apply reads_bind; [apply reads_read|intros ?].
  apply reads_bind; [apply reads_read_os|intros ?]. apply reads_ret.
Qed.

Lemma reads_take_files base_root root files snapshot :
  reads (take_files base_root root files snapshot).
Proof.
  revert snapshot. induction files as [|f files IH]; intros snapshot; simpl.
  - apply reads_ret.
  - apply reads_bind; [apply reads_take_file|done].
Qed.

Lemma reads_take_root base_root snapshot item :
  reads (take_root base_root snapshot item).
Proof.
  destruct item as [[root subdirs] files]. unfold take_root.
  apply reads_bind; [apply reads_read|intros ?].
  apply reads_bind; [apply reads_read_os|intros ?]. apply reads_take_files.
Qed.

Lemma reads_take_walk base_root items snapshot :
  reads (take_walk base_root items snapshot).
Proof.
  revert snapshot. induction items as [|item items IH]; intros snapshot; simpl.
  - apply reads_ret.
  - apply reads_bind; [apply reads_take_root|done].
Qed.

Lemma reads_take folder_or_file depth : reads (take folder_or_file depth).
Proof.
  unfold take.
  apply reads_bind; [apply reads_read|intros [|]].
  - apply reads_bind; [apply reads_read|intros ?].
    apply reads_bind; [apply reads_read_os|intros ?]. apply reads_ret.
  - apply reads_bind; [apply reads_read|intros isdir].
    destruct (negb isdir); [apply reads_ret|].
    apply reads_bind; [apply reads_read|intros ?]. apply reads_take_walk.
Qed.

(** [take] changes nothing, and raises only what [getmtime] raises. *)
Lemma take_run folder_or_file depth w :
  take folder_or_file depth w = (w, (take folder_or_file depth w).2).
Proof.
  destruct (reads_take folder_or_file depth) as (H1 & _ & _).
  specialize (H1 w). by destruct (take folder_or_file depth w); simpl in *; subst.
Qed.

End take_facts.

Section run_facts.
Context `{Platform} `{PySet}.
Local Open Scope prog_scope.

Lemma bind_assoc_run (a b c : M unit) w : (a ;; b ;; c) w = ((a ;; b) ;; c) w.
Proof.
  unfold bind. destruct (a w) as [w1 [[]|e]]; [|done].
  by destruct (b w1) as [w2 [[]|e]].
Qed.

Lemma finishing_done dry steps (p : M unit) :
  emits dry steps p → finishing dry steps (p ;; done "Done!").
Proof.
  intros Hp w Hw.
  destruct (Hp w Hw) as (w1 & r1 & cs1 & js1 & Hrun & Hc & Hj & Ht & He & Hok & Hpre & Hdry).
  unfold bind. rewrite Hrun. destruct r1 as [[]|e].
  - eexists _, (Ok tt), (steps ++ [call_done "Done!"]), js1.
    unfold done, called; simpl. rewrite Hc, Hok by done.
    split; [done|]. split; [by rewrite app_assoc|].
    repeat split; simpl; auto; try done; try (by apply Hdry).
  - exists w1, (Raise e), cs1, js1.
    repeat split; auto; try done; try (by apply Hdry).
Qed.

Lemma finishing_phases dry e1 e2 e3 (p1 p2 p3 : M unit) :
  emits dry e1 p1 → emits dry e2 p2 → emits dry e3 p3 →
  finishing dry (e1 ++ e2 ++ e3) (p1 ;; p2 ;; p3 ;; done "Done!").
Proof.
  intros H1 H2 H3 w Hw.
  assert (Hrun : (p1 ;; p2 ;; p3 ;; done "Done!") w
                 = ((p1 ;; p2 ;; p3) ;; done "Done!") w).
  { unfold bind. destruct (p1 w) as [w1 [[]|e]]; [|done].
    destruct (p2 w1) as [w2 [[]|e]]; [|done].
    by destruct (p3 w2) as [w3 [[]|e]]. }
  rewrite Hrun.
  refine (finishing_done dry (e1 ++ e2 ++ e3) (p1 ;; p2 ;; p3) _ w Hw).
  apply emits_bind; [done|]. by apply emits_bind.
Qed.

(** The reporting frame both engines share: [set_total], then either the
    short way out or [start], [info] and the tail [k]. *)
Lemma report_run dry header n steps (k : M unit) w :
  (n ≠ 0 → finishing dry steps k) →
  ∃ w' r,
    (set_total n ;;
     if bool_decide (n ≠ 0) then
       start header ;; info ("Syncing " +:+ format_int n +:+ " files.") ;; k
     else start header ;; done "Done! Nothing to sync.") w = (w', r) ∧
    (n = 0 →
       r = Ok tt ∧ fs w' = fs w ∧ journal w' = journal w ∧
       calls w' = calls w ++
         [call_set_total 0; call_start header; call_done "Done! Nothing to sync."]) ∧
    (n ≠ 0 →
       ∃ cs js,
         calls w' = calls w ++
           [call_set_total n; call_start header;
            call_info ("Syncing " +:+ format_int n +:+ " files.")] ++ cs ∧
         journal w' = journal w ++ js ∧
         ending js r ∧
         (r = Ok tt → cs = steps ++ [call_done "Done!"]) ∧
         (r ≠ Ok tt → cs `prefix_of` steps) ∧
         (dry = true → fs w' = fs w ∧ js = [] ∧ r = Ok tt)).
Proof.
  intros Hk. destruct (decide (n = 0)) as [->|Hn].
  - eexists _, (Ok tt). split; [reflexivity|]. split; [|done].
    intros _. simpl. by rewrite <- !app_assoc.
  - rewrite (bool_decide_eq_true_2 _ Hn).
    set (w2 := mkWorld (fs w) (mkReporter (name (reporter w)) n (amount (reporter w))
                                  (percent (reporter w)))
                 (((calls w ++ [call_set_total n]) ++ [call_start header]) ++
                    [call_info ("Syncing " +:+ format_int n +:+ " files.")])
                 (printed w) (journal w)).
    destruct (Hk Hn w2) as (w' & r & cs & js & Hrun & Hc & Hj & Ht & He & Hok & Hpre & Hdry);
      [done|].
    exists w', r. split.
    + unfold bind, set_total, start, info, called; simpl. exact Hrun.
    + split; [done|]. intros _. exists cs, js.
      split; [rewrite Hc; simpl; by rewrite <- !app_assoc|].
      repeat split; auto; try apply Hdry; done.
Qed.

End run_facts.

Section engine_runs.
Context `{Platform} `{PySet}.
Local Open Scope prog_scope.

Lemma prologue_run rp src dst k w w' r :
  prologue rp src dst k w = (w', r) →
  let w0 := mkWorld (fs w) (default (Reporter_init "Sync" 100) rp)
              (calls w) (printed w) (journal w) in
  (∃ msg, w' = w0 ∧ r = Raise (OSError msg) ∧
     ((take src (-1) w).2 = Raise (OSError msg) ∨
      ∃ ss, (take src (-1) w).2 = Ok ss ∧ (take dst (-1) w).2 = Raise (OSError msg))) ∨
  (∃ ss ds d,
     (take src (-1) w).2 = Ok ss ∧ (take dst (-1) w).2 = Ok ds ∧
     diff ss ds = Ok d ∧ k ss ds d w0 = (w', r)).
Proof.
  intros Hrun w0. unfold prologue, bind in Hrun. unfold use_reporter in Hrun at 1.
  fold w0 in Hrun.
  destruct (reads_take src (-1)) as (_ & Hsame_s & Hos_s).
  destruct (reads_take dst (-1)) as (_ & Hsame_d & Hos_d).
  rewrite (take_run src (-1) w0), (Hsame_s w0 w) in Hrun by done.
  destruct ((take src (-1) w).2) as [ss|e] eqn:Hss.
  - rewrite (take_run dst (-1) w0), (Hsame_d w0 w) in Hrun by done.
    destruct ((take dst (-1) w).2) as [ds|e] eqn:Hds.
    + destruct (diff_total ss ds) as [d Hd]. unfold lift in Hrun. rewrite Hd in Hrun.
      right. by exists ss, ds, d.
    + destruct (Hos_d w e Hds) as [msg ->]. injection Hrun as <- <-.
      left. exists msg. eauto 6.
  - destruct (Hos_s w e Hss) as [msg ->]. injection Hrun as <- <-.
    left. exists msg. eauto 6.
Qed.

Lemma sync_eq src dst replace_changed delete_files dry rp :
  sync src dst replace_changed delete_files dry rp =
  prologue rp (normalize [src]) (normalize [dst]) (λ ss ds d,
    report (normalize [src] +:+ " --> " +:+ normalize [dst])
      (let n := 0 + len (left_only d) in
       let n := if delete_files then n + len (right_only d) else n in
       if replace_changed then n + len (changed d) else n)
      (for_each (left_only d)
         (copy_unique "R-> Copy " (normalize [dst]) dry ss) ;;
       (if delete_files then
          for_each (depth_sort (right_only d)) (delete_unique dry ds)
        else ret tt) ;;
       (if replace_changed then
          for_each (changed d) (replace_changed_one dry ss ds)
        else ret tt) ;;
       done "Done!")).
Proof. reflexivity. Qed.

Lemma sync_bidirectional_eq src dst replace_changed dry rp :
  sync_bidirectional src dst replace_changed dry rp =
  prologue rp (normalize [src]) (normalize [dst]) (λ ss ds d,
    report (normalize [src] +:+ " <-> " +:+ normalize [dst])
      (let n := 0 + len (left_only d) in
       let n := n + len (right_only d) in
       if replace_changed then n + len (changed d) else n)
      (for_each (left_only d)
         (copy_unique "R-> Copy " (normalize [dst]) dry ss) ;;
       for_each (right_only d)
         (copy_unique "<-L Copy " (normalize [src]) dry ds) ;;
       (if replace_changed then
          for_each (changed d) (replace_newer_one dry ss ds)
        else ret tt) ;;
       done "Done!")).
Proof. reflexivity. Qed.

Lemma sync_total_code (d : Diff) (replace_changed delete_files : bool) :
  (let n := 0 + len (left_only d) in
   let n := if delete_files then n + len (right_only d) else n in
   if replace_changed then n + len (changed d) else n)
  = sync_total d replace_changed delete_files.
Proof. unfold sync_total. destruct replace_changed, delete_files; simpl; lia. Qed.

Lemma sync_bidirectional_total_code (d : Diff) (replace_changed : bool) :
  (let n := 0 + len (left_only d) in
   let n := n + len (right_only d) in
   if replace_changed then n + len (changed d) else n)
  = sync_bidirectional_total d replace_changed.
Proof. unfold sync_bidirectional_total. destruct replace_changed; simpl; lia. Qed.

Lemma depth_sort_perm files : depth_sort files ≡ₚ files.
Proof.
  unfold depth_sort, sorted_reverse. induction files as [|x files IH]; simpl; [done|].
  rewrite <- IH at 2. generalize (foldr (insert_desc (count "/")) [] files).
  intros l. induction l as [|y l IHl]; simpl; [done|].
  destruct (count "/" y <=? count "/" x)%nat; [done|].
  rewrite IHl. apply Permutation_swap.
Qed.

Lemma elem_of_depth_sort files k : k ∈ depth_sort files ↔ k ∈ files.
Proof. by rewrite depth_sort_perm. Qed.

(** Every run of [sync] is one of the three runs [run_of] describes. *)
Lemma sync_run_of src dst replace_changed delete_files dry rp w w' r :
  sync src dst replace_changed delete_files dry rp w = (w', r) →
  run_of (normalize [src]) (normalize [dst])
    (normalize [src] +:+ " --> " +:+ normalize [dst])
    (λ d, sync_total d replace_changed delete_files)
    (λ ss ds d, sync_steps ss ds d replace_changed delete_files) dry w w' r.
Proof.
  rewrite sync_eq. intros Hrun. apply prologue_run in Hrun.
  destruct Hrun as [(msg & -> & -> & Htake)|(ss & ds & d & Hss & Hds & Hd & Hrun)].
  - by eapply run_take_failed.
  - rewrite sync_total_code in Hrun. unfold report in Hrun.
    edestruct (report_run dry (normalize [src] +:+ " --> " +:+ normalize [dst])
                (sync_total d replace_changed delete_files)
                (sync_steps ss ds d replace_changed delete_files)) as
      (w1 & r1 & Hrun1 & Hzero & Hnonzero); [|rewrite Hrun1 in Hrun].
    { intros _. unfold sync_steps. apply finishing_phases.
      - apply emits_copy_loop. intros k Hk.
        by destruct (left_only_lookup _ _ _ _ Hd Hk).
      - apply emits_if, emits_delete_loop. intros k Hk.
        apply (proj1 (elem_of_depth_sort _ _)) in Hk.
        by destruct (right_only_lookup _ _ _ _ Hd Hk).
      - apply emits_if, emits_replace_loop. intros k Hk.
        destruct (changed_lookup _ _ _ _ Hd Hk) as (p & n & -> & -> & _). eauto. }
    injection Hrun as <- <-.
    destruct (decide (sync_total d replace_changed delete_files = 0)) as [Hn|Hn].
    + destruct (Hzero Hn) as (-> & Hfs & Hj & Hc).
      eapply run_nothing_to_sync; eauto.
    + destruct (Hnonzero Hn) as (cs & js & Hc & Hj & He & Hok & Hpre & Hdry).
      eapply run_synced; eauto.
Qed.

(** Every run of [sync_bidirectional] is one of the three runs [run_of]
    describes. *)
Lemma sync_bidirectional_run_of src dst replace_changed dry rp w w' r :
  sync_bidirectional src dst replace_changed dry rp w = (w', r) →
  run_of (normalize [src]) (normalize [dst])
    (normalize [src] +:+ " <-> " +:+ normalize [dst])
    (λ d, sync_bidirectional_total d replace_changed)
    (λ ss ds d, sync_bidirectional_steps ss ds d replace_changed) dry w w' r.
Proof.
  rewrite sync_bidirectional_eq. intros Hrun. apply prologue_run in Hrun.
  destruct Hrun as [(msg & -> & -> & Htake)|(ss & ds & d & Hss & Hds & Hd & Hrun)].
  - by eapply run_take_failed.
  - rewrite sync_bidirectional_total_code in Hrun. unfold report in Hrun.
    edestruct (report_run dry (normalize [src] +:+ " <-> " +:+ normalize [dst])
                (sync_bidirectional_total d replace_changed)
                (sync_bidirectional_steps ss ds d replace_changed)) as
      (w1 & r1 & Hrun1 & Hzero & Hnonzero); [|rewrite Hrun1 in Hrun].
    { intros _. unfold sync_bidirectional_steps. apply finishing_phases.
      - apply emits_copy_loop. intros k Hk.
        by destruct (left_only_lookup _ _ _ _ Hd Hk).
      - apply emits_copy_loop. intros k Hk.
        by destruct (right_only_lookup _ _ _ _ Hd Hk).
      - apply emits_if, emits_newer_loop. intros k Hk.
        destruct (changed_lookup _ _ _ _ Hd Hk) as (p & n & -> & -> & _). eauto. }
    injection Hrun as <- <-.
    destruct (decide (sync_bidirectional_total d replace_changed = 0)) as [Hn|Hn].
    + destruct (Hzero Hn) as (-> & Hfs & Hj & Hc).
      eapply run_nothing_to_sync; eauto.
    + destruct (Hnonzero Hn) as (cs & js & Hc & Hj & He & Hok & Hpre & Hdry).
      eapply run_synced; eauto.
Qed.

End engine_runs.

(* ===================================================================== *)
(** * The diff partition *)
(* ===================================================================== *)

Section diff_claims.

(** C1.  The partition is not total.  A key that is in both snapshots with
    different mtimes and is a directory on the right reaches the inner [if]
    of [diff], which has no [else]: it is appended to none of the four
    lists.  Here the root directory of both trees is such a key, and all
    four lists come out empty although the key is in [keys(A) ∪ keys(B)].
    (The lists are pairwise disjoint and cover every other key:
    [diff_disjoint], [diff_cover].) *)
Theorem diff_misses_directory_with_new_mtime `{PySet} :
  let A : Snapshot := {[ "." := mkEntry "/src" "." false 100 ]} in
  let B : Snapshot := {[ "." := mkEntry "/dst" "." false 200 ]} in
  "." ∈ dom A ∪ dom B ∧ diff A B = Ok (mkDiff [] [] [] []).
Proof.
  intros A B. split; [set_solver|].
  rewrite diff_filter.
  assert (Hiter : set_iter (dom A ∪ dom B) = ["."]).
  { apply Permutation_singleton_r. rewrite set_iter_perm.
    unfold A, B. rewrite !dom_singleton_L, union_idemp_L.
    by rewrite elements_singleton. }
  rewrite Hiter. reflexivity.
Qed.

(** C2.  A directory that is in both snapshots with different mtimes is not
    classified [common]; it is in no list at all.  Here [assets] is such a
    directory; the root, whose mtimes agree, is [common]. *)
Theorem diff_directory_with_new_mtime_not_common `{PySet} :
  let A : Snapshot :=
    <[ "assets" := mkEntry "/src/assets" "assets" false 20 ]>
      {[ "." := mkEntry "/src" "." false 100 ]} in
  let B : Snapshot :=
    <[ "assets" := mkEntry "/dst/assets" "assets" false 30 ]>
      {[ "." := mkEntry "/dst" "." false 100 ]} in
  ∃ d, diff A B = Ok d ∧
       "." ∈ common d ∧ ("assets" ∉ common d) ∧ ("assets" ∉ changed d) ∧
       ("assets" ∉ left_only d) ∧ ("assets" ∉ right_only d).
Proof.
  intros A B. destruct (diff_total A B) as [d Hd]. exists d. split; [done|].
  split; [by apply (elem_of_common _ _ _ _ Hd)|].
  destruct (diff_dropped A B d "assets" Hd) as (? & ? & ? & ?); done.
Qed.

(** C10.  [diff] is mirror-symmetric on the unique sides, whatever the
    iteration orders of the two calls: the keys of [left_only] of [diff A B]
    are the keys of [right_only] of [diff B A], and the other way round. *)
Theorem diff_mirror (order1 order2 : PySet) (A B : Snapshot) :
  ∃ dAB dBA,
    @diff order1 A B = Ok dAB ∧ @diff order2 B A = Ok dBA ∧
    list_to_set (left_only dAB) =@{gset string} list_to_set (right_only dBA) ∧
    list_to_set (right_only dAB) =@{gset string} list_to_set (left_only dBA).
Proof.
  destruct (@diff_total order1 A B) as [dAB HAB].
  destruct (@diff_total order2 B A) as [dBA HBA].
  exists dAB, dBA. split; [done|]. split; [done|].
  split; apply set_eq; intros k; rewrite !elem_of_list_to_set.
  - rewrite (elem_of_left_only _ _ _ _ HAB), (elem_of_right_only _ _ _ _ HBA).
    unfold is_left_only, is_right_only. by destruct (A !! k), (B !! k).
  - rewrite (elem_of_right_only _ _ _ _ HAB), (elem_of_left_only _ _ _ _ HBA).
    unfold is_left_only, is_right_only. by destruct (A !! k), (B !! k).
Qed.

End diff_claims.

(* ===================================================================== *)
(** * depth_sort *)
(* ===================================================================== *)

Section depth_sort_claims.

Lemma count_app c s1 s2 : count c (s1 +:+ s2) = (count c s1 + count c s2)%nat.
Proof. induction s1 as [|a s1 IH]; simpl; [done|]. rewrite IH. lia. Qed.

Lemma ancestor_of_count a p :
  ancestor_of a p → (count "/" a < count "/" p)%nat.
Proof. intros [rest ->]. rewrite !count_app. simpl. lia. Qed.

Lemma insert_desc_sorted {A} (key : A → nat) x l :
  StronglySorted (λ y z, key z ≤ key y)%nat l →
  StronglySorted (λ y z, key z ≤ key y)%nat (insert_desc key x l).
Proof.
  induction 1 as [|y l Hl IH Hy]; simpl.
  - repeat constructor.
  - destruct (key y <=? key x)%nat eqn:Hle.
    + apply Nat.leb_le in Hle. constructor; [by constructor|].
      constructor; [done|].
      eapply Forall_impl; [exact Hy|]. simpl. intros z Hz. lia.
    + apply Nat.leb_gt in Hle. constructor; [done|].
      assert (Hperm : insert_desc key x l ≡ₚ x :: l).
      { clear. induction l as [|z l IHl]; simpl; [done|].
        destruct (key z <=? key x)%nat; [done|]. rewrite IHl. apply Permutation_swap. }
      rewrite Hperm. constructor; [lia|done].
Qed.

Lemma depth_sort_sorted files :
  StronglySorted (λ x y, count "/" y ≤ count "/" x)%nat (depth_sort files).
Proof.
  unfold depth_sort, sorted_reverse. induction files as [|x files IH]; simpl.
  - constructor.
  - by apply insert_desc_sorted.
Qed.

Lemma sorted_lookup_le {A} (key : A → nat) l i j x y :
  StronglySorted (λ y z, key z ≤ key y)%nat l →
  l !! i = Some x → l !! j = Some y → (i < j)%nat → (key y ≤ key x)%nat.
Proof.
  intros Hs. revert i j. induction Hs as [|z l Hl IH Hz]; intros i j Hi Hj Hij.
  - done.
  - destruct j as [|j]; [lia|]. destruct i as [|i]; simpl in *.
    + injection Hi as ->. rewrite Forall_forall in Hz. apply Hz.
      by eapply list_elem_of_lookup_2.
    + eapply IH; eauto. lia.
Qed.

(** C8, as the code has it.  The result of [depth_sort] is a rearrangement
    of its input in which separator counts never increase, and so every
    path comes before each of its ancestors: no ancestor is placed before
    one of its descendants. *)
Theorem depth_sort_deepest_first files :
  depth_sort files ≡ₚ files ∧
  StronglySorted (λ x y, count "/" y ≤ count "/" x)%nat (depth_sort files) ∧
  ∀ i j a p, ancestor_of a p →
    depth_sort files !! i = Some p → depth_sort files !! j = Some a → (i < j)%nat.
Proof.
  split; [apply depth_sort_perm|]. split; [apply depth_sort_sorted|].
  intros i j a p Hanc Hi Hj. apply ancestor_of_count in Hanc.
  destruct (decide (i < j)%nat) as [|Hge]; [done|]. exfalso.
  destruct (decide (i = j)) as [->|Hne].
  - rewrite Hi in Hj. injection Hj as ->. lia.
  - assert (Hlt : (j < i)%nat) by lia.
    pose proof (sorted_lookup_le (count "/") _ _ _ _ _
                  (depth_sort_sorted files) Hj Hi Hlt). lia.
Qed.

Lemma depth_sort_deepest_first_witness :
  ancestor_of "a" "a/b" ∧
  depth_sort ["a"; "a/b"] !! 0%nat = Some "a/b" ∧
  depth_sort ["a"; "a/b"] !! 1%nat = Some "a" ∧
  (0 < 1)%nat.
Proof.
  assert (Ha : ancestor_of "a" "a/b") by (by exists "b").
  split; [exact Ha|]. split; [reflexivity|]. split; [reflexivity|].
  exact (proj2 (proj2 (depth_sort_deepest_first ["a"; "a/b"]))
           0%nat 1%nat "a" "a/b" Ha eq_refl eq_refl).
Defined.

(** C8, as stated, fails: [depth_sort] does place a path before one of its
    own ancestors.  On ["a"; "a/b"] the path [a/b] comes out first and its
    ancestor [a] second. *)
Lemma depth_sort_places_path_before_ancestor :
  ¬ (∀ files i j a p, ancestor_of a p →
       depth_sort files !! i = Some p → depth_sort files !! j = Some a →
       ¬ (i < j)%nat).
Proof.
  intros Hnever.
  apply (Hnever ["a"; "a/b"] 0%nat 1%nat "a" "a/b").
  - by exists "b".
  - reflexivity.
  - reflexivity.
  - lia.
Qed.

End depth_sort_claims.

(* ===================================================================== *)
(** * What the engines report *)
(* ===================================================================== *)

Section report_facts.

Lemma Ok_or_not (r : result unit) : r = Ok tt ∨ r ≠ Ok tt.
Proof. destruct r as [[]|e]; [by left|by right]. Qed.

Lemma step_sum_app cs1 cs2 : step_sum (cs1 ++ cs2) = step_sum cs1 + step_sum cs2.
Proof.
  induction cs1 as [|c cs1 IH]; simpl; [done|]. destruct c; rewrite ?IH; lia.
Qed.

Lemma step_sum_unit cs : Forall unit_step cs → step_sum cs = len cs.
Proof.
  unfold len. induction 1 as [|c cs [m ->] _ IH]; simpl; [done|]. rewrite IH. lia.
Qed.

Lemma unit_step_app cs1 cs2 :
  Forall unit_step cs1 → Forall unit_step cs2 → Forall unit_step (cs1 ++ cs2).
Proof. intros. by apply Forall_app. Qed.

Lemma unit_step_steps_for prefix (S : Snapshot) keys :
  Forall unit_step (steps_for prefix S keys).
Proof. unfold steps_for. apply Forall_fmap, Forall_true. intros k. by eexists. Qed.

Lemma unit_step_newer (A B : Snapshot) keys : Forall unit_step (newer_step A B <$> keys).
Proof.
  apply Forall_fmap, Forall_true. intros k. unfold newer_step; simpl.
  destruct (bool_decide _); by eexists.
Qed.

Lemma unit_step_sync_steps ss ds d replace_changed delete_files :
  Forall unit_step (sync_steps ss ds d replace_changed delete_files).
Proof.
  unfold sync_steps. repeat apply unit_step_app.
  - apply unit_step_steps_for.
  - destruct delete_files; [apply unit_step_steps_for|constructor].
  - destruct replace_changed; [apply unit_step_steps_for|constructor].
Qed.

Lemma unit_step_sync_bidirectional_steps ss ds d replace_changed :
  Forall unit_step (sync_bidirectional_steps ss ds d replace_changed).
Proof.
  unfold sync_bidirectional_steps. repeat apply unit_step_app.
  - apply unit_step_steps_for.
  - apply unit_step_steps_for.
  - destruct replace_changed; [apply unit_step_newer|constructor].
Qed.

Lemma len_app {A} (l1 l2 : list A) : len (l1 ++ l2) = len l1 + len l2.
Proof. unfold len. rewrite length_app. lia. Qed.

Lemma len_fmap {A B} (f : A → B) l : len (f <$> l) = len l.
Proof. unfold len. by rewrite length_fmap. Qed.

Lemma len_depth_sort files : len (depth_sort files) = len files.
Proof. unfold len. by rewrite depth_sort_perm. Qed.

Lemma len_sync_steps ss ds d replace_changed delete_files :
  len (sync_steps ss ds d replace_changed delete_files)
  = sync_total d replace_changed delete_files.
Proof.
  unfold sync_steps, sync_total, steps_for. rewrite !len_app, len_fmap.
  destruct delete_files, replace_changed;
    rewrite ?len_fmap, ?len_depth_sort; unfold len; simpl; lia.
Qed.

Lemma len_sync_bidirectional_steps ss ds d replace_changed :
  len (sync_bidirectional_steps ss ds d replace_changed)
  = sync_bidirectional_total d replace_changed.
Proof.
  unfold sync_bidirectional_steps, sync_bidirectional_total, steps_for.
  rewrite !len_app, !len_fmap.
  destruct replace_changed; rewrite ?len_fmap; unfold len; simpl; lia.
Qed.

Lemma sync_total_nonneg d replace_changed delete_files :
  (0 ≤ sync_total d replace_changed delete_files)%Z.
Proof. unfold sync_total, len. destruct replace_changed, delete_files; lia. Qed.

Lemma sync_bidirectional_total_nonneg d replace_changed :
  (0 ≤ sync_bidirectional_total d replace_changed)%Z.
Proof. unfold sync_bidirectional_total, len. destruct replace_changed; lia. Qed.

Lemma last_total_no_set_total t cs :
  (∀ n, call_set_total n ∉ cs) →
  foldl (λ t c, match c with call_set_total n => Some n | _ => t end) t cs = t.
Proof.
  revert t. induction cs as [|c cs IH]; intros t Hno; simpl; [done|].
  rewrite IH.
  - destruct c; try done. exfalso. eapply Hno. by left.
  - intros n Hn. eapply Hno. by right.
Qed.

End report_facts.

Section run_of_facts.
Context `{Platform} `{PySet}.
Variables (src dst header : string) (total_of : Diff → Z).
Variable steps_of : Snapshot → Snapshot → Diff → list Call.
Hypothesis total_nonneg : ∀ d, (0 ≤ total_of d)%Z.
Hypothesis steps_unit : ∀ ss ds d, Forall unit_step (steps_of ss ds d).
Hypothesis steps_len : ∀ ss ds d, len (steps_of ss ds d) = total_of d.

(** In the calls of a run, what comes after [info] is [step] calls with
    amount one, and perhaps a final [done]. *)
Lemma run_tail_calls r ss ds d cs c :
  (r = Ok tt → cs = steps_of ss ds d ++ [call_done "Done!"]) →
  (r ≠ Ok tt → cs `prefix_of` steps_of ss ds d) →
  c ∈ cs → unit_step c ∨ c = call_done "Done!".
Proof.
  intros Hok Hpre Hc. pose proof (steps_unit ss ds d) as Hunit.
  rewrite Forall_forall in Hunit.
  destruct (Ok_or_not r) as [Hr|Hr].
  - rewrite (Hok Hr) in Hc. apply elem_of_app in Hc as [Hc|Hc]; [left; auto|].
    apply list_elem_of_singleton in Hc. by right.
  - destruct (Hpre Hr) as [k Hk]. left. apply Hunit. rewrite Hk.
    apply elem_of_app. by left.
Qed.

(** Every [step] of a run comes after a [set_total] with a positive value,
    and the run does not end in [ZeroDivisionError]. *)
Lemma run_of_step_positive dry w w' r :
  run_of src dst header total_of steps_of dry w w' r →
  r ≠ Raise ZeroDivisionError ∧
  ∃ cs, calls w' = calls w ++ cs ∧
    ∀ pre a m post, cs = pre ++ call_step a m :: post →
      ∃ n, last_total pre = Some n ∧ (0 < n)%Z.
Proof.
  intros [msg _ -> _ Hc _|ss ds d _ _ _ Hn -> _ _ Hc|ss ds d cs js _ _ _ Hn Hc _ He Hok Hpre _].
  - split; [done|]. exists []. rewrite app_nil_r. split; [done|].
    intros pre a m post Heq. by destruct pre.
  - split; [done|]. eexists. split; [exact Hc|].
    intros pre a m post Heq.
    destruct pre as [|? [|? [|? [|? pre]]]]; simplify_eq/=.
  - split; [by destruct He|]. eexists. split; [exact Hc|].
    intros pre a m post Heq. exists (total_of d).
    pose proof (total_nonneg d). split; [|lia].
    destruct pre as [|c1 pre]; [done|]. injection Heq as <- Heq.
    unfold last_total. simpl. apply last_total_no_set_total.
    intros n Hin.
    assert (Hin' : call_set_total n ∈ call_start header ::
              call_info ("Syncing " +:+ format_int (total_of d) +:+ " files.") :: cs).
    { rewrite Heq. apply elem_of_app. by left. }
    apply elem_of_cons in Hin' as [?|Hin']; [done|].
    apply elem_of_cons in Hin' as [?|Hin']; [done|].
    destruct (run_tail_calls _ _ _ _ _ _ Hok Hpre Hin') as [[? ?]|?]; done.
Qed.

(** The [step] amounts of a run that gets past the short way out add up to
    the total when the run returns, and to no more than the total when it
    is cut short. *)
Lemma run_of_step_sum dry w w' r n cs :
  run_of src dst header total_of steps_of dry w w' r →
  calls w' = calls w ++ call_set_total n :: cs → n ≠ 0 →
  (∃ ss ds d,
     (take src (-1) w).2 = Ok ss ∧ (take dst (-1) w).2 = Ok ds ∧
     diff ss ds = Ok d ∧ n = total_of d) ∧
  (r = Ok tt → step_sum cs = n) ∧
  (dry = true → r = Ok tt) ∧
  (step_sum cs ≤ n)%Z.
Proof.
  intros [msg _ -> _ Hc _|ss ds d _ _ _ Hn -> _ _ Hc|ss ds d cs0 js Hss Hds Hd Hn Hc _ He Hok Hpre Hdry]
    Hcalls Hne.
  - rewrite Hc in Hcalls. apply (f_equal length) in Hcalls.
    rewrite length_app in Hcalls. simpl in Hcalls. lia.
  - rewrite Hc in Hcalls. apply app_inv_head in Hcalls. by simplify_eq.
  - rewrite Hc in Hcalls. apply app_inv_head in Hcalls. simpl in Hcalls.
    injection Hcalls as <- <-. simpl.
    split; [by exists ss, ds, d|].
    pose proof (steps_unit ss ds d) as Hunit.
    split; [|split].
    + intros Hr. rewrite (Hok Hr), step_sum_app, step_sum_unit by done.
      simpl. rewrite steps_len. lia.
    + intros Hd'. by destruct (Hdry Hd') as (_ & _ & ?).
    + destruct (Ok_or_not r) as [Hr|Hr].
      * rewrite (Hok Hr), step_sum_app, step_sum_unit by done.
        simpl. rewrite steps_len. lia.
      * destruct (Hpre Hr) as [k Hk]. rewrite <- (steps_len ss ds d), Hk.
        rewrite Hk in Hunit. apply Forall_app in Hunit as [Hu1 Hu2].
        rewrite len_app, (step_sum_unit _ Hu1). unfold len. lia.
Qed.

(** With the total zero a run reports [set_total], [start] and [done] and
    does nothing else. *)
Lemma run_of_nothing dry w w' r ss ds d :
  run_of src dst header total_of steps_of dry w w' r →
  (take src (-1) w).2 = Ok ss → (take dst (-1) w).2 = Ok ds → diff ss ds = Ok d →
  total_of d = 0 →
  r = Ok tt ∧
  calls w' = calls w ++
    [call_set_total 0; call_start header; call_done "Done! Nothing to sync."] ∧
  fs w' = fs w ∧ journal w' = journal w.
Proof.
  intros [msg Ht -> _ _ _|ss' ds' d' Hss' Hds' Hd' Hn -> Hfs Hj Hc|ss' ds' d' cs js Hss' Hds' Hd' Hn _ _ _ _ _ _]
    Hss Hds Hd Hzero.
  - destruct Ht as [Ht|(ss' & _ & Ht)]; congruence.
  - done.
  - congruence.
Qed.

End run_of_facts.

Section report_claims.
Context `{Platform} `{PySet}.

(** C7.  When the computed total is zero, [sync] and [sync_bidirectional]
    call [set_total(0)], [start] and [done('Done! Nothing to sync.')], make
    no other reporter call, make no platform call, leave the file system
    as it is and return. *)
Theorem nothing_to_sync src dst replace_changed delete_files dry rp w ss ds d :
  (take (normalize [src]) (-1) w).2 = Ok ss →
  (take (normalize [dst]) (-1) w).2 = Ok ds →
  diff ss ds = Ok d →
  (sync_total d replace_changed delete_files = 0 →
     ∃ w', sync src dst replace_changed delete_files dry rp w = (w', Ok tt) ∧
       calls w' = calls w ++
         [call_set_total 0;
          call_start (normalize [src] +:+ " --> " +:+ normalize [dst]);
          call_done "Done! Nothing to sync."] ∧
       fs w' = fs w ∧ journal w' = journal w) ∧
  (sync_bidirectional_total d replace_changed = 0 →
     ∃ w', sync_bidirectional src dst replace_changed dry rp w = (w', Ok tt) ∧
       calls w' = calls w ++
         [call_set_total 0;
          call_start (normalize [src] +:+ " <-> " +:+ normalize [dst]);
          call_done "Done! Nothing to sync."] ∧
       fs w' = fs w ∧ journal w' = journal w).
Proof.
  intros Hss Hds Hd. split; intros Hzero.
  - destruct (sync src dst replace_changed delete_files dry rp w) as [w' r] eqn:Hrun.
    apply sync_run_of in Hrun.
    destruct (run_of_nothing _ _ _ _ _ _ _ _ _ _ _ _ Hrun Hss Hds Hd Hzero)
      as (-> & ? & ? & ?).
    by exists w'.
  - destruct (sync_bidirectional src dst replace_changed dry rp w) as [w' r] eqn:Hrun.
    apply sync_bidirectional_run_of in Hrun.
    destruct (run_of_nothing _ _ _ _ _ _ _ _ _ _ _ _ Hrun Hss Hds Hd Hzero)
      as (-> & ? & ? & ?).
    by exists w'.
Qed.

(** C9.  In a run of [sync] or [sync_bidirectional], every call of [step]
    comes after a [set_total] whose value, the last one set, is strictly
    positive; so the division in [Reporter.step] never has a zero divisor
    and the run never ends in [ZeroDivisionError]. *)
Theorem step_follows_positive_total src dst replace_changed delete_files dry rp w w' r :
  sync src dst replace_changed delete_files dry rp w = (w', r) ∨
  sync_bidirectional src dst replace_changed dry rp w = (w', r) →
  r ≠ Raise ZeroDivisionError ∧
  ∃ cs, calls w' = calls w ++ cs ∧
    ∀ pre a m post, cs = pre ++ call_step a m :: post →
      ∃ n, last_total pre = Some n ∧ (0 < n)%Z.
Proof.
  intros [Hrun|Hrun].
  - apply sync_run_of in Hrun. eapply run_of_step_positive; [| |exact Hrun].
    + intros d'. apply sync_total_nonneg.
    + intros. apply unit_step_sync_steps.
  - apply sync_bidirectional_run_of in Hrun.
    eapply run_of_step_positive; [| |exact Hrun].
    + intros d'. apply sync_bidirectional_total_nonneg.
    + intros. apply unit_step_sync_bidirectional_steps.
Qed.

(** C5, as the code has it.  In a run of [sync] that gets past the short
    way out, the value passed to [set_total] is
    [|left_only| + (|right_only| if delete_files) + (|changed| if
    replace_changed)]; when the run returns, the [step] amounts add up to
    that value, with [dry] set or not, and a dry run always returns; when
    a failed copy cuts the run short they add up to no more than it. *)
Theorem sync_step_sum src dst replace_changed delete_files dry rp w w' r n cs :
  sync src dst replace_changed delete_files dry rp w = (w', r) →
  calls w' = calls w ++ call_set_total n :: cs →
  n ≠ 0 →
  (∃ ss ds d,
     (take (normalize [src]) (-1) w).2 = Ok ss ∧
     (take (normalize [dst]) (-1) w).2 = Ok ds ∧
     diff ss ds = Ok d ∧
     n = len (left_only d)
         + (if delete_files then len (right_only d) else 0)
         + (if replace_changed then len (changed d) else 0)) ∧
  (r = Ok tt → step_sum cs = n) ∧
  (dry = true → r = Ok tt) ∧
  (step_sum cs ≤ n)%Z.
Proof.
  intros Hrun Hcalls Hn. apply sync_run_of in Hrun.
  eapply (run_of_step_sum _ _ _ (λ d, sync_total d replace_changed delete_files));
    [| |exact Hrun|exact Hcalls|exact Hn].
  - intros. apply unit_step_sync_steps.
  - intros. apply len_sync_steps.
Qed.

End report_claims.

Lemma taken_Ok (r : result Snapshot) : is_Ok r = true → r = Ok (taken r).
Proof. by destruct r. Qed.

Lemma diffed_Ok (r : result Diff) : is_Ok r = true → r = Ok (diffed r).
Proof. by destruct r. Qed.

Lemma nothing_to_sync_witness :
  ∃ w', Trees.run_sync Trees.mirrored true true false = (w', Ok tt) ∧
    calls w' = [call_set_total 0; call_start "/s --> /t";
                call_done "Done! Nothing to sync."] ∧
    fs w' = Trees.mirrored ∧ journal w' = [].
Proof.
  pose (w := MemFS.world Trees.mirrored).
  pose (ss := taken (@take MemFS.platform "/s" (-1) w).2).
  pose (ds := taken (@take MemFS.platform "/t" (-1) w).2).
  pose (d := diffed (@diff elements_order ss ds)).
  refine (proj1 (@nothing_to_sync MemFS.platform elements_order
                   "/s" "/t" true true false None w ss ds d _ _ _) _).
  - apply taken_Ok. vm_compute. reflexivity.
  - apply taken_Ok. vm_compute. reflexivity.
  - apply diffed_Ok. vm_compute. reflexivity.
  - vm_compute. reflexivity.
Defined.

Lemma step_follows_positive_total_witness :
  let run := Trees.run_sync Trees.plain true true false in
  run.2 ≠ Raise ZeroDivisionError ∧
  ∃ cs, calls run.1 = [] ++ cs ∧
    ∀ pre a m post, cs = pre ++ call_step a m :: post →
      ∃ n, last_total pre = Some n ∧ (0 < n)%Z.
Proof.
  intros run.
  apply (@step_follows_positive_total MemFS.platform elements_order
           "/s" "/t" true true false None (MemFS.world Trees.plain) run.1 run.2).
  left. apply surjective_pairing.
Defined.

Lemma sync_step_sum_witness :
  let run := Trees.run_sync Trees.plain true true false in
  run.2 = Ok tt ∧
  step_sum [call_start "/s --> /t"; call_info "Syncing 3 files.";
            call_step 1 "R-> Copy a.txt"; call_step 1 "R-> Delete b.txt";
            call_step 1 "R-> Replace c.txt"; call_done "Done!"] = 3.
Proof.
  intros run.
  assert (Hrun : Trees.run_sync Trees.plain true true false = (run.1, run.2))
    by apply surjective_pairing.
  assert (Hr : run.2 = Ok tt) by (vm_compute; reflexivity).
  split; [exact Hr|].
  refine (proj1 (proj2 (@sync_step_sum MemFS.platform elements_order
            "/s" "/t" true true false None (MemFS.world Trees.plain)
            run.1 run.2 3 _ Hrun _ _)) Hr).
  - vm_compute; reflexivity.
  - done.
Defined.

(** C5, as stated, fails.  In this run of [sync] two files are to be copied
    and the first copy fails, which ends the run: [set_total] was given 2
    and the [step] amounts add up to 1. *)
Lemma sync_step_sum_short_of_total :
  let run := Trees.run_sync Trees.blocked false false false in
  calls run.1 =
    [call_set_total 2; call_start "/s --> /t"; call_info "Syncing 2 files.";
     call_step 1 "R-> Copy a/c.txt"] ∧
  run.2 = Raise (OSError "Not a directory") ∧
  step_sum (calls run.1) ≠ 2.
Proof. vm_compute. repeat split; done. Qed.

Section dry_run_facts.
Context `{Platform} `{PySet}.
Variables (src dst header : string) (total_of : Diff → Z).
Variable steps_of : Snapshot → Snapshot → Diff → list Call.

(** A dry run and a real run from the same world. *)
Lemma run_of_dry_real w wd rd wr rr :
  run_of src dst header total_of steps_of true w wd rd →
  run_of src dst header total_of steps_of false w wr rr →
  fs wd = fs w ∧ journal wd = journal w ∧
  calls wr `prefix_of` calls wd ∧
  (rr = Ok tt → calls wr = calls wd ∧ rd = Ok tt).
Proof.
  intros [msg Ht -> Hfs Hc Hj|ss ds d Hss Hds Hd Hn -> Hfs Hj Hc
         |ss ds d cs js Hss Hds Hd Hn Hc Hj He Hok Hpre Hdry]
         [msg' Ht' -> _ Hc' _|ss' ds' d' Hss' Hds' Hd' Hn' -> _ _ Hc'
         |ss' ds' d' cs' js' Hss' Hds' Hd' Hn' Hc' _ _ Hok' Hpre' _];
    try (destruct Ht as [Ht|(? & ? & Ht)]; congruence);
    try (destruct Ht' as [Ht'|(? & ? & Ht')]; congruence);
    try (assert (d' = d) by congruence; congruence).
  - repeat split; try done. by rewrite Hc, Hc'.
  - repeat split; try done; by rewrite Hc, Hc'.
  - destruct (Hdry eq_refl) as (Hfs & -> & ->).
    rewrite app_nil_r in Hj. split; [done|]. split; [done|].
    assert (ss' = ss) as -> by congruence.
    assert (ds' = ds) as -> by congruence.
    assert (d' = d) as -> by congruence.
    rewrite (Hok eq_refl) in Hc. split.
    + rewrite Hc, Hc'. apply prefix_app, prefix_app.
      destruct (Ok_or_not rr) as [Hr|Hr].
      * by rewrite (Hok' Hr).
      * by apply prefix_app_r, Hpre'.
    + intros Hr. split; [|done]. by rewrite Hc, Hc', (Hok' Hr).
Qed.

End dry_run_facts.

Section dry_run_claims.
Context `{Platform} `{PySet}.

(** C6, as the code has it.  A dry run of [sync] or [sync_bidirectional]
    makes no platform call and leaves the file system as it is, so that a
    snapshot taken after it is the snapshot taken before it.  The reporter
    calls of the real run from the same world are the first calls of the
    dry run, and all of them when the real run returns. *)
Theorem dry_run_neutral src dst replace_changed delete_files rp w :
  let dry_run := sync src dst replace_changed delete_files true rp w in
  let real_run := sync src dst replace_changed delete_files false rp w in
  let dry_run' := sync_bidirectional src dst replace_changed true rp w in
  let real_run' := sync_bidirectional src dst replace_changed false rp w in
  (fs dry_run.1 = fs w ∧ journal dry_run.1 = journal w ∧
   (∀ root depth, (take root depth dry_run.1).2 = (take root depth w).2) ∧
   calls real_run.1 `prefix_of` calls dry_run.1 ∧
   (real_run.2 = Ok tt → calls real_run.1 = calls dry_run.1 ∧ dry_run.2 = Ok tt)) ∧
  (fs dry_run'.1 = fs w ∧ journal dry_run'.1 = journal w ∧
   (∀ root depth, (take root depth dry_run'.1).2 = (take root depth w).2) ∧
   calls real_run'.1 `prefix_of` calls dry_run'.1 ∧
   (real_run'.2 = Ok tt → calls real_run'.1 = calls dry_run'.1 ∧ dry_run'.2 = Ok tt)).
Proof.
  intros dry_run real_run dry_run' real_run'. split.
  - pose proof (sync_run_of src dst replace_changed delete_files true rp w
                  dry_run.1 dry_run.2 (surjective_pairing _)) as Hdry.
    pose proof (sync_run_of src dst replace_changed delete_files false rp w
                  real_run.1 real_run.2 (surjective_pairing _)) as Hreal.
    destruct (run_of_dry_real _ _ _ _ _ _ _ _ _ _ Hdry Hreal) as (Hfs & Hj & Hpre & Hok).
    repeat split; try done; try (by apply Hok).
    intros root depth. by apply (reads_take root depth).
  - pose proof (sync_bidirectional_run_of src dst replace_changed true rp w
                  dry_run'.1 dry_run'.2 (surjective_pairing _)) as Hdry.
    pose proof (sync_bidirectional_run_of src dst replace_changed false rp w
                  real_run'.1 real_run'.2 (surjective_pairing _)) as Hreal.
    destruct (run_of_dry_real _ _ _ _ _ _ _ _ _ _ Hdry Hreal) as (Hfs & Hj & Hpre & Hok).
    repeat split; try done; try (by apply Hok).
    intros root depth. by apply (reads_take root depth).
Qed.

End dry_run_claims.

Lemma dry_run_neutral_witness :
  (Trees.run_sync Trees.plain true true false).2 = Ok tt ∧
  calls (Trees.run_sync Trees.plain true true false).1
  = calls (Trees.run_sync Trees.plain true true true).1 ∧
  (Trees.run_sync Trees.plain true true true).2 = Ok tt.
Proof.
  assert (Hr : (Trees.run_sync Trees.plain true true false).2 = Ok tt)
    by (vm_compute; reflexivity).
  split; [exact Hr|].
  exact (proj2 (proj2 (proj2 (proj2 (proj1
           (@dry_run_neutral MemFS.platform elements_order
              "/s" "/t" true true None (MemFS.world Trees.plain)))))) Hr).
Defined.

(** C6, as stated, fails.  From the same world the dry run of [sync]
    reports two steps and [done]; the real run reports one step and is then
    ended by the failed copy, without the second step and without [done]. *)
Lemma dry_run_reports_more_than_real_run :
  let dry_run := Trees.run_sync Trees.blocked false false true in
  let real_run := Trees.run_sync Trees.blocked false false false in
  calls dry_run.1 =
    [call_set_total 2; call_start "/s --> /t"; call_info "Syncing 2 files.";
     call_step 1 "R-> Copy a/c.txt"; call_step 1 "R-> Copy a/b.txt";
     call_done "Done!"] ∧
  calls real_run.1 =
    [call_set_total 2; call_start "/s --> /t"; call_info "Syncing 2 files.";
     call_step 1 "R-> Copy a/c.txt"] ∧
  real_run.2 = Raise (OSError "Not a directory") ∧
  calls dry_run.1 ≠ calls real_run.1.
Proof. vm_compute. repeat split; done. Qed.

(* ===================================================================== *)
(** * The failure policy *)
(* ===================================================================== *)

Section failure_facts.
Context `{Platform} `{PySet}.
Variables (src dst header : string) (total_of : Diff → Z).
Variable steps_of : Snapshot → Snapshot → Diff → list Call.
Hypothesis steps_unit : ∀ ss ds d, Forall unit_step (steps_of ss ds d).

(** A failed copy ends the run: it is the last platform call, the run
    raises, and [done] is not reached.  Nothing else ends a run that has
    taken its snapshots. *)
Lemma run_of_failed_copy dry w w' r :
  run_of src dst header total_of steps_of dry w w' r →
  ∃ js cs,
    journal w' = journal w ++ js ∧ calls w' = calls w ++ cs ∧
    (∀ s d, op_copy2 s d false ∈ js →
       (∃ msg, r = Raise (OSError msg)) ∧
       last js = Some (op_copy2 s d false) ∧
       ∀ m, call_done m ∉ cs) ∧
    (r = Ok tt ∨
     ∃ msg, r = Raise (OSError msg) ∧
       ((js = [] ∧ cs = []) ∨ ∃ s d, last js = Some (op_copy2 s d false))).
Proof.
  intros [msg _ -> _ Hc Hj|ss ds d _ _ _ _ -> _ Hj Hc
         |ss ds d cs js _ _ _ _ Hc Hj He Hok Hpre _].
  - exists [], []. rewrite !app_nil_r. split; [done|]. split; [done|]. split.
    + intros a b Hin. by apply elem_of_nil in Hin.
    + right. exists msg. split; [done|]. by left.
  - eexists [], _. rewrite app_nil_r. split; [done|]. split; [exact Hc|].
    split; [|by left]. intros a b Hin. by apply elem_of_nil in Hin.
  - eexists js, _. split; [done|]. split; [exact Hc|].
    destruct He as [Hclean|js0 s0 d0 msg -> Hclean].
    + split; [|by left]. intros a b Hin. by apply Hclean in Hin.
    + split.
      * intros a b Hin. split; [by exists msg|].
        apply elem_of_app in Hin as [Hin|Hin]; [by apply Hclean in Hin|].
        apply list_elem_of_singleton in Hin as ->.
        split; [apply last_snoc|].
        intros m Hm.
        apply elem_of_cons in Hm as [?|Hm]; [done|].
        apply elem_of_cons in Hm as [?|Hm]; [done|].
        apply elem_of_cons in Hm as [?|Hm]; [done|].
        destruct (Hpre ltac:(done)) as [k Hk].
        pose proof (steps_unit ss ds d) as Hunit. rewrite Hk in Hunit.
        apply Forall_app in Hunit as [Hunit _].
        rewrite Forall_forall in Hunit. by destruct (Hunit _ Hm).
      * right. exists msg. split; [done|]. right. exists s0, d0. apply last_snoc.
Qed.

End failure_facts.

Section failure_claims.
Context `{Platform} `{PySet}.

(** C3.  [create_folder], [remove_file] and [remove_folder] always return:
    a failure of the platform call inside them is printed and the file
    system is left as it was.  A failure of the copy in [copy_file] is
    raised to the caller.  In a run of [sync] or [sync_bidirectional] a
    failed copy is the last platform call made, the run raises and never
    reaches [done]; and a run that raises after taking its snapshots was
    ended by a failed copy, never by one of the three other operations. *)
Theorem failure_policy path src dst w :
  ((create_folder path w).2 = Ok tt ∧
   ∀ msg, os_path_isdir (fs w) path = false → os_makedirs path (fs w) = inl msg →
     fs (create_folder path w).1 = fs w ∧
     printed (create_folder path w).1 = printed w ++ [OSError msg]) ∧
  ((remove_file path w).2 = Ok tt ∧
   ∀ msg, os_remove path (fs w) = inl msg →
     fs (remove_file path w).1 = fs w ∧
     printed (remove_file path w).1 = printed w ++ [OSError msg]) ∧
  ((remove_folder path w).2 = Ok tt ∧
   (∀ msg, os_listdir (fs w) path = inl msg →
      fs (remove_folder path w).1 = fs w ∧
      printed (remove_folder path w).1 = printed w ++ [OSError msg]) ∧
   (∀ msg, os_listdir (fs w) path = inr [] → os_rmdir path (fs w) = inl msg →
      fs (remove_folder path w).1 = fs w ∧
      printed (remove_folder path w).1 = printed w ++ [OSError msg])) ∧
  (∀ msg,
     shutil_copy2 src dst (fs (create_folder (os_path_dirname dst) w).1) = inl msg →
     (copy_file src dst w).2 = Raise (OSError msg)) ∧
  (∀ replace_changed delete_files dry rp w' r,
     sync src dst replace_changed delete_files dry rp w = (w', r) ∨
     sync_bidirectional src dst replace_changed dry rp w = (w', r) →
     ∃ js cs,
       journal w' = journal w ++ js ∧ calls w' = calls w ++ cs ∧
       (∀ s d, op_copy2 s d false ∈ js →
          (∃ msg, r = Raise (OSError msg)) ∧
          last js = Some (op_copy2 s d false) ∧
          ∀ m, call_done m ∉ cs) ∧
       (r = Ok tt ∨
        ∃ msg, r = Raise (OSError msg) ∧
          ((js = [] ∧ cs = []) ∨ ∃ s d, last js = Some (op_copy2 s d false)))).
Proof.
  split; [|split; [|split; [|split]]].
  - split; [apply create_folder_Ok|]. intros msg Hdir Hmk.
    by rewrite create_folder_run, Hdir, Hmk.
  - rewrite remove_file_run. split; [by destruct (os_remove path (fs w))|].
    by intros msg ->.
  - rewrite remove_folder_run. split; [|split].
    + destruct (os_listdir (fs w) path) as [?|[|??]]; try done.
      by destruct (os_rmdir path (fs w)).
    + by intros msg ->.
    + by intros msg -> ->.
  - intros msg Hcopy. rewrite copy_file_run. simpl. by rewrite Hcopy.
  - intros replace_changed delete_files dry rp w' r [Hrun|Hrun].
    + apply sync_run_of in Hrun. eapply run_of_failed_copy; [|exact Hrun].
      intros. apply unit_step_sync_steps.
    + apply sync_bidirectional_run_of in Hrun.
      eapply run_of_failed_copy; [|exact Hrun].
      intros. apply unit_step_sync_bidirectional_steps.
Qed.

End failure_claims.

Lemma failure_policy_witness :
  MemFS.copy2 "/s/a/b.txt" "/t/a/b.txt"
    (fs (@create_folder MemFS.platform "/t/a" (MemFS.world Trees.blocked)).1)
  = inl "Not a directory" ∧
  (@copy_file MemFS.platform "/s/a/b.txt" "/t/a/b.txt" (MemFS.world Trees.blocked)).2
  = Raise (OSError "Not a directory").
Proof.
  assert (Hcopy : MemFS.copy2 "/s/a/b.txt" "/t/a/b.txt"
            (fs (@create_folder MemFS.platform "/t/a" (MemFS.world Trees.blocked)).1)
          = inl "Not a directory") by (vm_compute; reflexivity).
  split; [exact Hcopy|].
  exact (proj1 (proj2 (proj2 (proj2
           (@failure_policy MemFS.platform elements_order "/t/a"
              "/s/a/b.txt" "/t/a/b.txt" (MemFS.world Trees.blocked)))))
           "Not a directory" Hcopy).
Defined.

(* ===================================================================== *)
(** * Which side wins in [sync_bidirectional] *)
(* ===================================================================== *)

Section copies_facts.
Context `{Platform} `{PySet}.
Local Open Scope prog_scope.
















End copies_facts.

Section newer_side_claims.
Context `{Platform} `{PySet}.
Local Open Scope prog_scope.




End newer_side_claims.



(** The other way in which C4, as stated, fails.  Here [x] is in [changed]
    and the destination's file is the newer one, but the source entry is a
    directory: the copy is made with that directory as its target, the
    directory stays, and the file lands inside it. *)
Lemma older_directory_is_not_replaced :
  let w := MemFS.world Trees.file_over_directory in
  let ss := taken (@take MemFS.platform "/s" (-1) w).2 in
  let ds := taken (@take MemFS.platform "/t" (-1) w).2 in
  let run := Trees.run_sync_bidirectional Trees.file_over_directory true false in
  changed (diffed (@diff elements_order ss ds)) = ["x"] ∧
  ss !! "x" = Some (mkEntry "/s/x" "x" false 3) ∧
  ds !! "x" = Some (mkEntry "/t/x" "x" true 5) ∧
  run.2 = Ok tt ∧
  calls run.1 =
    [call_set_total 1; call_start "/s <-> /t"; call_info "Syncing 1 files.";
     call_step 1 "<-L Replace x"; call_done "Done!"] ∧
  journal run.1 = [op_copy2 "/t/x" "/s/x" true] ∧
  MemFS.nodes (fs run.1) !! "/s/x" = Some (MemFS.Dir 3) ∧
  MemFS.nodes (fs run.1) !! "/s/x/x" = Some (MemFS.File 5 "five").
Proof. vm_compute. repeat split; done. Qed.

(* ===================================================================== *)
(** * More about [diff] *)
(* ===================================================================== *)

Section diff_more.
Context `{PySet}.
Implicit Types A B : Snapshot.

(** X1.  [diff] never raises: the loop indexes both snapshots only with
    keys of their union and only after the two membership tests, so the
    [KeyError] of a missing key cannot happen.  Every key it returns, in any
    of the four lists, is a key of one of the two snapshots. *)
Theorem diff_never_raises A B :
  ∃ d, diff A B = Ok d ∧
    ∀ k, k ∈ left_only d ++ right_only d ++ changed d ++ common d →
         k ∈ dom A ∪ dom B.
Proof.
  destruct (diff_total A B) as [d Hd]. exists d. split; [done|].
  intros k Hk. apply (diff_cover A B d k Hd).
  rewrite !elem_of_app in Hk. tauto.
Qed.

(** X2.  No key is reported twice: each of the four lists is free of
    duplicates and no key is in two of them. *)
Theorem diff_lists_disjoint A B :
  ∃ d, diff A B = Ok d ∧
    NoDup (left_only d ++ right_only d ++ changed d ++ common d).
Proof.
  destruct (diff_total A B) as [d Hd]. exists d. split; [done|].
  destruct (diff_NoDup A B d Hd) as (Hl & Hr & Hc & Hm).
  assert (Hdis : ∀ k, _) by exact (λ k, diff_disjoint A B d k Hd).
  rewrite !NoDup_app. split; [done|]. split.
  - intros k Hk Hin. destruct (Hdis k) as (H1 & H2 & H3 & _).
    rewrite !elem_of_app in Hin. tauto.
  - split; [done|]. split.
    + intros k Hk Hin. destruct (Hdis k) as (_ & _ & _ & H4 & H5 & _).
      rewrite !elem_of_app in Hin. tauto.
    + split; [done|]. split; [|done].
      intros k Hk Hin. destruct (Hdis k) as (_ & _ & _ & _ & _ & H6). tauto.
Qed.

(** X3.  [left_only] holds exactly the keys of the first snapshot that the
    second one lacks, and [right_only] exactly the keys of the second that
    the first lacks; the mtimes and the file flags play no part. *)
Theorem diff_unique_sides A B :
  ∃ d, diff A B = Ok d ∧
    ∀ k, (k ∈ left_only d ↔ k ∈ dom A ∧ (k ∉ dom B)) ∧
         (k ∈ right_only d ↔ (k ∉ dom A) ∧ k ∈ dom B).
Proof.
  destruct (diff_total A B) as [d Hd]. exists d. split; [done|]. intros k.
  rewrite (elem_of_left_only _ _ _ _ Hd), (elem_of_right_only _ _ _ _ Hd).
  rewrite !elem_of_dom. unfold is_left_only, is_right_only.
  destruct (A !! k) as [p|], (B !! k) as [n|]; split; split;
    try done; try (intros [H1 H2]); try done;
    try (by destruct H1); try (by destruct H2);
    try (exfalso; by eauto).
Qed.

(** X4.  A key is [changed] exactly when both snapshots have it, the two
    mtimes differ, and the entry of the second snapshot is a file.  The
    file flag of the first snapshot's entry is not looked at. *)
Theorem diff_changed_iff A B :
  ∃ d, diff A B = Ok d ∧
    ∀ k, k ∈ changed d ↔
      ∃ p n, A !! k = Some p ∧ B !! k = Some n ∧
             mtime n ≠ mtime p ∧ isfile n = true.
Proof.
  destruct (diff_total A B) as [d Hd]. exists d. split; [done|]. intros k.
  split; [apply (changed_lookup _ _ _ _ Hd)|].
  intros (p & n & HA & HB & Hm & Hf).
  apply (elem_of_changed _ _ _ _ Hd). unfold is_changed.
  rewrite HA, HB, Hf. by rewrite bool_decide_eq_true_2.
Qed.

(** X5.  A key is [common] exactly when both snapshots have it with equal
    mtimes, whether the two entries are files or directories, alike or
    not.  So [common] does not depend on the order of the two snapshots. *)
Theorem diff_common_iff (order' : PySet) A B :
  ∃ d d', diff A B = Ok d ∧ @diff order' B A = Ok d' ∧
    ∀ k, (k ∈ common d ↔
            ∃ p n, A !! k = Some p ∧ B !! k = Some n ∧ mtime n = mtime p) ∧
         (k ∈ common d ↔ k ∈ common d').
Proof.
  destruct (diff_total A B) as [d Hd].
  destruct (@diff_total order' B A) as [d' Hd'].
  exists d, d'. split; [done|]. split; [done|]. intros k.
  rewrite (elem_of_common _ _ _ _ Hd), (@elem_of_common order' _ _ _ _ Hd').
  unfold is_common. destruct (A !! k) as [p|], (B !! k) as [n|]; simpl.
  - rewrite !bool_decide_eq_true. split; [|split; congruence].
    split; [eauto|]. by intros (? & ? & [= <-] & [= <-] & ?).
  - split; [|done]. split; [done|]. by intros (? & ? & _ & [=] & _).
  - split; [|done]. split; [done|]. by intros (? & ? & [=] & _).
  - split; [|done]. split; [done|]. by intros (? & ? & [=] & _).
Qed.

(** X6.  Where every key of the two snapshots goes: into one of the four
    lists, or, when both snapshots have it with different mtimes and the
    second snapshot's entry is not a file, into none. *)
Theorem diff_where_keys_go A B :
  ∃ d, diff A B = Ok d ∧
    ∀ k, k ∈ dom A ∪ dom B →
      (k ∈ left_only d ++ right_only d ++ changed d ++ common d ↔
       ¬ ∃ p n, A !! k = Some p ∧ B !! k = Some n ∧
                mtime n ≠ mtime p ∧ isfile n = false).
Proof.
  destruct (diff_total A B) as [d Hd]. exists d. split; [done|]. intros k Hk.
  assert (Hdrop : is_dropped A B k = true ↔
            ∃ p n, A !! k = Some p ∧ B !! k = Some n ∧
                   mtime n ≠ mtime p ∧ isfile n = false).
  { unfold is_dropped. destruct (A !! k) as [p|], (B !! k) as [n|]; simpl.
    - rewrite andb_true_iff, bool_decide_eq_true, negb_true_iff.
      split; [intros [? ?]; eauto 6|].
      by intros (? & ? & [= <-] & [= <-] & ? & ?).
    - split; [done|]. by intros (? & ? & _ & [=] & _).
    - split; [done|]. by intros (? & ? & [=] & _).
    - split; [done|]. by intros (? & ? & [=] & _). }
  rewrite <- Hdrop. rewrite !elem_of_app. split.
  - intros Hin Hd'. destruct (diff_dropped A B d k Hd Hd') as (? & ? & ? & ?).
    tauto.
  - intros Hnot. apply (diff_cover A B d k Hd) in Hk. tauto.
Qed.

Lemma filter_none (f : string → bool) (l : list string) :
  (∀ k, k ∈ l → f k = false) → filter f l = [].
Proof.
  intros Hf. induction l as [|x l IH]; [done|].
  rewrite filter_cons. rewrite (Hf x) by (by left). simpl.
  apply IH. intros k Hk. apply Hf. by right.
Qed.

Lemma filter_all (f : string → bool) (l : list string) :
  (∀ k, k ∈ l → f k = true) → filter f l = l.
Proof.
  intros Hf. induction l as [|x l IH]; [done|].
  rewrite filter_cons. rewrite (Hf x) by (by left). simpl. f_equal.
  apply IH. intros k Hk. apply Hf. by right.
Qed.

(** X7.  The diff of a snapshot with itself: nothing is unique to a side,
    nothing is changed, and every key is common. *)
Theorem diff_same A :
  diff A A = Ok (mkDiff [] [] [] (set_iter (dom A))).
Proof.
  rewrite diff_filter, union_idemp_L. f_equal.
  f_equal.
  - apply filter_none. intros k _. unfold is_left_only. by destruct (A !! k).
  - apply filter_none. intros k _. unfold is_right_only. by destruct (A !! k).
  - apply filter_none. intros k _. unfold is_changed. destruct (A !! k); [|done].
    by rewrite bool_decide_eq_false_2 by (intros ?; done).
  - apply filter_all. intros k Hk. apply set_iter_elem, elem_of_dom in Hk as [e He].
    unfold is_common. rewrite He. by apply bool_decide_eq_true.
Qed.

(** The diff against the empty snapshot on the right. *)
Lemma diff_nothing_right A :
  diff A ∅ = Ok (mkDiff (set_iter (dom A)) [] [] []).
Proof.
  rewrite diff_filter, dom_empty_L.
  rewrite (right_id_L ∅ (∪)). f_equal. f_equal.
  - apply filter_all. intros k Hk. apply set_iter_elem, elem_of_dom in Hk as [e He].
    unfold is_left_only. by rewrite He, lookup_empty.
  - apply filter_none. intros k _. unfold is_right_only.
    rewrite lookup_empty. by destruct (A !! k).
  - apply filter_none. intros k _. unfold is_changed.
    rewrite lookup_empty. by destruct (A !! k).
  - apply filter_none. intros k _. unfold is_common.
    rewrite lookup_empty. by destruct (A !! k).
Qed.

(** X8.  Against an empty snapshot, the one a missing root gives, every
    key is unique to the other side: all of the first snapshot is
    [left_only], all of the second is [right_only]. *)
Theorem diff_empty A :
  diff A ∅ = Ok (mkDiff (set_iter (dom A)) [] [] []) ∧
  diff ∅ A = Ok (mkDiff [] (set_iter (dom A)) [] []).
Proof.
  split; [apply diff_nothing_right|].
  rewrite diff_filter, dom_empty_L.
  rewrite (left_id_L ∅ (∪)). f_equal. f_equal.
  - apply filter_none. intros k _. unfold is_left_only. by rewrite lookup_empty.
  - apply filter_all. intros k Hk. apply set_iter_elem, elem_of_dom in Hk as [e He].
    unfold is_right_only. by rewrite He, lookup_empty.
  - apply filter_none. intros k _. unfold is_changed. by rewrite lookup_empty.
  - apply filter_none. intros k _. unfold is_common. by rewrite lookup_empty.
Qed.

End diff_more.

(* ===================================================================== *)
(** * More about [depth_sort] and the path functions *)
(* ===================================================================== *)

Section depth_sort_more.

Lemma insert_desc_filter {A} (key : A → nat) (n : nat) x l :
  filter (λ y, key y = n) (insert_desc key x l)
  = filter (λ y, key y = n) (x :: l).
Proof.
  induction l as [|y l IH]; simpl; [done|].
  destruct (key y <=? key x)%nat eqn:Hle; [done|].
  apply Nat.leb_gt in Hle.
  rewrite (filter_cons _ y), IH, !filter_cons.
  destruct (decide (key x = n)) as [Hx|Hx]; [|done].
  destruct (decide (key y = n)) as [Hy|Hy]; [lia|done].
Qed.

(** X9.  [depth_sort] is stable: paths with the same number of separators
    come out in the order they came in. *)
Theorem depth_sort_stable files n :
  filter (λ x, count "/" x = n) (depth_sort files)
  = filter (λ x, count "/" x = n) files.
Proof.
  unfold depth_sort, sorted_reverse. induction files as [|x files IH]; simpl; [done|].
  rewrite insert_desc_filter, !filter_cons, IH. done.
Qed.

Lemma insert_desc_head {A} (key : A → nat) x l :
  Forall (λ y, key y ≤ key x)%nat l → insert_desc key x l = x :: l.
Proof.
  destruct 1 as [|y l Hy _]; simpl; [done|].
  by rewrite (proj2 (Nat.leb_le _ _) Hy).
Qed.

(** X10.  A list whose separator counts never increase is left as it is,
    so sorting twice is sorting once. *)
Theorem depth_sort_idempotent files :
  (StronglySorted (λ x y, count "/" y ≤ count "/" x)%nat files →
   depth_sort files = files) ∧
  depth_sort (depth_sort files) = depth_sort files.
Proof.
  assert (Hfix : ∀ l, StronglySorted (λ x y, count "/" y ≤ count "/" x)%nat l →
                      depth_sort l = l).
  { intros l. unfold depth_sort, sorted_reverse.
    induction 1 as [|x l Hl IH Hx]; simpl; [done|].
    rewrite IH. by apply insert_desc_head. }
  split; [apply Hfix|]. apply Hfix, depth_sort_sorted.
Qed.

Lemma depth_sort_idempotent_witness :
  StronglySorted (λ x y, count "/" y ≤ count "/" x)%nat ["a/b/c"; "d/e"; "f"] ∧
  depth_sort ["a/b/c"; "d/e"; "f"] = ["a/b/c"; "d/e"; "f"].
Proof.
  assert (Hs : StronglySorted (λ x y, count "/" y ≤ count "/" x)%nat
                 ["a/b/c"; "d/e"; "f"]).
  { repeat constructor; simpl; lia. }
  split; [exact Hs|].
  exact (proj1 (depth_sort_idempotent ["a/b/c"; "d/e"; "f"]) Hs).
Defined.

Lemma count_replace_other (a b : ascii) s :
  a ≠ b → count a (replace a b s) = 0%nat.
Proof.
  intros Hab. induction s as [|c s IH]; simpl; [done|]. rewrite IH.
  destruct (Ascii.eqb c a) eqn:Hc.
  - rewrite (proj2 (Ascii.eqb_neq b a)); [done|congruence].
  - by rewrite Hc.
Qed.

End depth_sort_more.

Section path_more.
Context `{Platform}.

(** X11.  [normalize] and [relative] never return a backslash: whatever
    [os.path] hands back, every separator comes out as a forward slash. *)
Theorem normalize_no_backslash parts fs path start :
  count backslash (normalize parts) = 0%nat ∧
  count backslash (relative fs path start) = 0%nat.
Proof.
  split; apply count_replace_other; by vm_compute.
Qed.

End path_more.

(* ===================================================================== *)
(** * More about [take] *)
(* ===================================================================== *)

Section take_more.
Context `{Platform} `{PySet}.
Local Open Scope prog_scope.

(** X12.  [take] only looks: it leaves the file system, the reporter and
    the histories as they were, its result depends on the file system
    alone, and the only exception it raises is the [OSError] of a failed
    [getmtime]. *)
Theorem take_only_reads folder_or_file depth w :
  (take folder_or_file depth w).1 = w ∧
  (∀ w', fs w' = fs w →
     (take folder_or_file depth w').2 = (take folder_or_file depth w).2) ∧
  (∀ e, (take folder_or_file depth w).2 = Raise e → ∃ msg, e = OSError msg).
Proof.
  destruct (reads_take folder_or_file depth) as (H1 & H2 & H3).
  split; [apply H1|]. split; [intros w' Hfs; by apply H2|apply H3].
Qed.

Lemma well_keyed_insert s p k b m :
  well_keyed s → count backslash p = 0%nat →
  well_keyed (<[k := mkEntry p k b m]> s).
Proof.
  intros Hs Hp k' e. rewrite lookup_insert. case_decide as Hk.
  - intros [= <-]. by subst.
  - apply Hs.
Qed.

Lemma no_backslash_normalize parts : count backslash (normalize parts) = 0%nat.
Proof. apply count_replace_other. by vm_compute. Qed.

Lemma take_file_keyed base_root root snapshot f w s :
  well_keyed snapshot →
  (take_file base_root root snapshot f w).2 = Ok s → well_keyed s.
Proof.
  intros Hs. unfold take_file, bind, read, read_os, ret. simpl.
  destruct (os_path_getmtime _ _); simpl; [done|]. intros [= <-].
  apply well_keyed_insert; [done|apply no_backslash_normalize].
Qed.

Lemma take_files_keyed base_root root files snapshot w s :
  well_keyed snapshot →
  (take_files base_root root files snapshot w).2 = Ok s → well_keyed s.
Proof.
  revert snapshot w. induction files as [|f files IH]; intros snapshot w Hs; simpl.
  - by intros [= <-].
  - unfold bind.
    destruct (take_file base_root root snapshot f w) as [w1 [s1|e]] eqn:Hf;
      [|done].
    apply IH. eapply take_file_keyed; [exact Hs|]. by rewrite Hf.
Qed.

Lemma take_root_keyed base_root snapshot item w s :
  well_keyed snapshot →
  (take_root base_root snapshot item w).2 = Ok s → well_keyed s.
Proof.
  intros Hs. destruct item as [[root subdirs] files].
  unfold take_root, bind, read, read_os. simpl.
  destruct (os_path_getmtime _ _); simpl; [done|].
  apply take_files_keyed, well_keyed_insert; [done|apply no_backslash_normalize].
Qed.

Lemma take_walk_keyed base_root items snapshot w s :
  well_keyed snapshot →
  (take_walk base_root items snapshot w).2 = Ok s → well_keyed s.
Proof.
  revert snapshot w. induction items as [|item items IH]; intros snapshot w Hs; simpl.
  - by intros [= <-].
  - unfold bind.
    destruct (take_root base_root snapshot item w) as [w1 [s1|e]] eqn:Hr;
      [|done].
    apply IH. eapply take_root_keyed; [exact Hs|]. by rewrite Hr.
Qed.

(** X13.  In a snapshot that [take] returns every entry is stored under its
    own [relative_path], and the [path] of every entry is free of
    backslashes. *)
Theorem take_entries_keyed folder_or_file depth w s :
  (take folder_or_file depth w).2 = Ok s →
  ∀ k e, s !! k = Some e →
    relative_path e = k ∧ count backslash (path e) = 0%nat.
Proof.
  unfold take, bind, read. simpl.
  destruct (os_path_isfile (fs w) folder_or_file).
  - unfold read_os. destruct (os_path_getmtime _ _); simpl; [done|].
    intros [= <-] k e. rewrite lookup_singleton. case_decide as Hk; [|done].
    intros [= <-]. split; [by subst|apply no_backslash_normalize].
  - destruct (os_path_isdir (fs w) folder_or_file); simpl.
    + apply take_walk_keyed. intros k e. by rewrite lookup_empty.
    + intros [= <-] k e. by rewrite lookup_empty.
Qed.

(** A root that is neither a file nor a directory gives the empty
    snapshot. *)
Lemma take_missing folder_or_file depth w :
  os_path_isfile (fs w) folder_or_file = false →
  os_path_isdir (fs w) folder_or_file = false →
  take folder_or_file depth w = (w, Ok ∅).
Proof.
  intros Hf Hd. unfold take, bind, read. simpl. by rewrite Hf, Hd.
Qed.

Lemma length_set_iter (X : gset string) : length (set_iter X) = size X.
Proof. by rewrite set_iter_perm. Qed.

(** X14.  When the destination root does not exist, [sync] counts every
    entry of the source snapshot as an operation, whatever
    [replace_changed] and [delete_files] say, and every step it reports is
    the copy of a source entry. *)
Theorem sync_to_missing_destination
    src dst replace_changed delete_files dry rp w w' r ss :
  os_path_isfile (fs w) (normalize [dst]) = false →
  os_path_isdir (fs w) (normalize [dst]) = false →
  (take (normalize [src]) (-1) w).2 = Ok ss →
  sync src dst replace_changed delete_files dry rp w = (w', r) →
  ∃ cs, calls w' = calls w ++ call_set_total (Z.of_nat (size ss)) :: cs ∧
    ∀ a m, call_step a m ∈ cs →
      a = 1 ∧ ∃ e, e ∈ (map_to_list ss).*2 ∧ m = "R-> Copy " +:+ relative_path e.
Proof.
  intros Hf Hd Hss Hrun. apply sync_run_of in Hrun.
  assert (Hds : (take (normalize [dst]) (-1) w).2 = Ok ∅)
    by (by rewrite take_missing).
  assert (Hdiff : ∀ d, diff ss ∅ = Ok d →
            sync_total d replace_changed delete_files = Z.of_nat (size ss) ∧
            sync_steps ss ∅ d replace_changed delete_files
            = steps_for "R-> Copy " ss (set_iter (dom ss))).
  { intros d. rewrite (diff_nothing_right ss). intros [= <-]. split.
    - unfold sync_total, len. simpl. rewrite length_set_iter, size_dom.
      destruct replace_changed, delete_files; simpl; lia.
    - unfold sync_steps.
      destruct replace_changed, delete_files; simpl; by rewrite ?app_nil_r. }
  destruct Hrun as [msg Ht _ _ _ _|ss' ds' d Hss' Hds' Hd' Hn _ _ _ Hc
                   |ss' ds' d cs js Hss' Hds' Hd' Hn Hc _ _ Hok Hpre _].
  - destruct Ht as [Ht|(? & _ & Ht)]; congruence.
  - assert (ss' = ss) as -> by congruence. assert (ds' = ∅) as -> by congruence.
    destruct (Hdiff d Hd') as [Htot _]. rewrite <- Htot, Hn.
    eexists. split; [exact Hc|].
    intros a m Hin. repeat (apply elem_of_cons in Hin as [?|Hin]; [done|]).
    by apply elem_of_nil in Hin.
  - assert (ss' = ss) as -> by congruence. assert (ds' = ∅) as -> by congruence.
    destruct (Hdiff d Hd') as [Htot Hsteps]. rewrite <- Htot.
    eexists. split; [exact Hc|].
    intros a m Hin.
    apply elem_of_cons in Hin as [?|Hin]; [done|].
    apply elem_of_cons in Hin as [?|Hin]; [done|].
    assert (Hin' : call_step a m ∈ steps_for "R-> Copy " ss (set_iter (dom ss))).
    { rewrite <- Hsteps. destruct (Ok_or_not r) as [Hr|Hr].
      - rewrite (Hok Hr) in Hin. apply elem_of_app in Hin as [Hin|Hin]; [done|].
        by apply list_elem_of_singleton in Hin.
      - destruct (Hpre Hr) as [rest ->]. apply elem_of_app. by left. }
    unfold steps_for in Hin'. apply list_elem_of_fmap in Hin' as (k & [= -> ->] & Hk).
    split; [done|].
    apply set_iter_elem, elem_of_dom in Hk as [e He].
    exists e. rewrite (lookup_total_correct _ _ _ He). split; [|done].
    apply list_elem_of_fmap. exists (k, e). split; [done|].
    by apply elem_of_map_to_list.
Qed.

End take_more.

Lemma take_entries_keyed_witness :
  taken (@take MemFS.platform "/s" (-1) (MemFS.world MoreTrees.no_destination)).2
    !! "docs/b.txt" = Some (mkEntry "/s/docs/b.txt" "docs/b.txt" true 101) ∧
  relative_path (mkEntry "/s/docs/b.txt" "docs/b.txt" true 101) = "docs/b.txt" ∧
  count backslash (path (mkEntry "/s/docs/b.txt" "docs/b.txt" true 101)) = 0%nat.
Proof.
  pose (w := MemFS.world MoreTrees.no_destination).
  assert (Hs : (@take MemFS.platform "/s" (-1) w).2
               = Ok (taken (@take MemFS.platform "/s" (-1) w).2))
    by (apply taken_Ok; vm_compute; reflexivity).
  assert (Hk : taken (@take MemFS.platform "/s" (-1) w).2 !! "docs/b.txt"
               = Some (mkEntry "/s/docs/b.txt" "docs/b.txt" true 101))
    by (vm_compute; reflexivity).
  split; [exact Hk|].
  exact (@take_entries_keyed MemFS.platform "/s" (-1) w _ Hs _ _ Hk).
Defined.

Lemma sync_to_missing_destination_witness :
  MemFS.isfile MoreTrees.no_destination "/t" = false ∧
  MemFS.isdir MoreTrees.no_destination "/t" = false ∧
  ∃ cs,
    calls (@sync MemFS.platform elements_order "/s" "/t" false false false None
             (MemFS.world MoreTrees.no_destination)).1
    = [] ++ call_set_total 4 :: cs.
Proof.
  pose (w := MemFS.world MoreTrees.no_destination).
  assert (Hf : MemFS.isfile MoreTrees.no_destination "/t" = false) by reflexivity.
  assert (Hd : MemFS.isdir MoreTrees.no_destination "/t" = false) by reflexivity.
  split; [exact Hf|]. split; [exact Hd|].
  assert (Hs : (@take MemFS.platform "/s" (-1) w).2
               = Ok (taken (@take MemFS.platform "/s" (-1) w).2))
    by (apply taken_Ok; vm_compute; reflexivity).
  assert (Hsize : Z.of_nat (size (taken (@take MemFS.platform "/s" (-1) w).2)) = 4)
    by (vm_compute; reflexivity).
  destruct (@sync_to_missing_destination MemFS.platform elements_order
              "/s" "/t" false false false None w _ _ _ Hf Hd Hs
              (surjective_pairing _)) as (cs & Hc & _).
  exists cs. rewrite <- Hsize. exact Hc.
Defined.

(* ===================================================================== *)
(** * More about the file operations and the reporter *)
(* ===================================================================== *)

Section copy_file_more.
Context `{Platform}.

(** X15.  [copy_file] always attempts the copy, as its last platform call,
    also when creating the parent folder has just failed (that failure is
    only printed).  Before it there is at most one call, the [makedirs] of
    the parent of [dst], made only when the parent is not a directory.
    [copy_file] returns exactly when the copy succeeds. *)
Theorem copy_file_always_copies src dst w :
  ∃ js ok,
    journal (copy_file src dst w).1 = journal w ++ js ++ [op_copy2 src dst ok] ∧
    (ok = true ↔ (copy_file src dst w).2 = Ok tt) ∧
    (js = [] ∨
     ∃ ok', js = [op_makedirs (os_path_dirname dst) ok'] ∧
            os_path_isdir (fs w) (os_path_dirname dst) = false).
Proof.
  rewrite copy_file_run, create_folder_run.
  destruct (os_path_isdir (fs w) (os_path_dirname dst)) eqn:Hdir;
    [|destruct (os_makedirs (os_path_dirname dst) (fs w)) as [msg|fs']];
    simpl; destruct (shutil_copy2 src dst _); simpl.
  - exists [], false. split; [done|]. split; [by split|by left].
  - exists [], true. split; [done|]. split; [by split|by left].
  - exists [op_makedirs (os_path_dirname dst) false], false.
    rewrite <- app_assoc. split; [done|]. split; [by split|right; by eexists].
  - exists [op_makedirs (os_path_dirname dst) false], true.
    rewrite <- app_assoc. split; [done|]. split; [by split|right; by eexists].
  - exists [op_makedirs (os_path_dirname dst) true], false.
    rewrite <- app_assoc. split; [done|]. split; [by split|right; by eexists].
  - exists [op_makedirs (os_path_dirname dst) true], true.
    rewrite <- app_assoc. split; [done|]. split; [by split|right; by eexists].
Qed.

End copy_file_more.

Section tracks_facts.
Context `{Platform} `{PySet}.
Local Open Scope prog_scope.

Lemma tracks_still {A} (c : M A) :
  (∀ w, calls (c w).1 = calls w ∧ reporter (c w).1 = reporter w) → tracks c.
Proof.
  intros Hc w. exists []. rewrite app_nil_r. simpl. apply Hc.
Qed.

Lemma tracks_ret {A} (a : A) : tracks (ret a).
Proof. by apply tracks_still. Qed.

Lemma tracks_raise {A} e : tracks (@raise _ A e).
Proof. by apply tracks_still. Qed.

Lemma tracks_lift {A} (r : result A) : tracks (lift r).
Proof. by apply tracks_still. Qed.

Lemma tracks_reads {A} (c : M A) : reads c → tracks c.
Proof. intros (Hc & _). apply tracks_still. intros w. by rewrite Hc. Qed.

Lemma tracks_bind {A B} (c : M A) (k : A → M B) :
  tracks c → (∀ a, tracks (k a)) → tracks (bind c k).
Proof.
  intros Hc Hk w. destruct (Hc w) as (cs1 & Hc1 & Hr1). unfold bind.
  destruct (c w) as [w1 [a|e]]; simpl in *.
  - destruct (Hk a w1) as (cs2 & Hc2 & Hr2). exists (cs1 ++ cs2).
    by rewrite Hc2, Hr2, Hc1, Hr1, foldl_app, app_assoc.
  - by exists cs1.
Qed.

Lemma tracks_for_each {A} (l : list A) (body : A → M unit) :
  (∀ k, tracks (body k)) → tracks (for_each l body).
Proof.
  intros Hbody. induction l as [|k l IH]; simpl.
  - apply tracks_ret.
  - apply tracks_bind; [apply Hbody|done].
Qed.

Lemma tracks_called c u :
  (∀ self, u self = Reporter_after self c) → tracks (called c u).
Proof. intros Hu w. exists [c]. simpl. by rewrite Hu. Qed.

Lemma tracks_step a m : tracks (step a m).
Proof.
  intros w. exists [call_step a m]. unfold step, bind, called. simpl.
  destruct (bool_decide (total (reporter w) = 0)); done.
Qed.

Lemma tracks_getitem (S : Snapshot) k : tracks (getitem S k).
Proof. unfold getitem. destruct (S !! k); [apply tracks_ret|apply tracks_raise]. Qed.

Lemma tracks_remove_file p : tracks (remove_file p).
Proof.
  apply tracks_still. intros w. rewrite remove_file_run.
  by destruct (os_remove p (fs w)).
Qed.

Lemma tracks_remove_folder p : tracks (remove_folder p).
Proof.
  apply tracks_still. intros w. rewrite remove_folder_run.
  destruct (os_listdir (fs w) p) as [?|[|??]]; try done.
  by destruct (os_rmdir p (fs w)).
Qed.

Lemma tracks_create_folder p : tracks (create_folder p).
Proof.
  apply tracks_still. intros w. rewrite create_folder_run.
  destruct (os_path_isdir (fs w) p); [done|]. by destruct (os_makedirs p (fs w)).
Qed.

Lemma tracks_copy_file s d : tracks (copy_file s d).
Proof.
  apply tracks_still. intros w. rewrite copy_file_run. simpl.
  destruct (tracks_create_folder (os_path_dirname d) w) as (cs & Hc & Hr).
  assert (cs = []) as ->.
  { apply (f_equal length) in Hc. revert Hc.
    rewrite create_folder_run.
    destruct (os_path_isdir _ _); [|destruct (os_makedirs _ _)]; simpl;
      rewrite length_app; destruct cs; simpl; try done; lia. }
  rewrite app_nil_r in Hc. simpl in Hr.
  by destruct (shutil_copy2 s d _).
Qed.

Lemma tracks_copy_unique prefix to_root dry S k :
  tracks (copy_unique prefix to_root dry S k).
Proof.
  unfold copy_unique. apply tracks_bind; [apply tracks_getitem|intros e].
  apply tracks_bind; [apply tracks_step|intros _].
  destruct dry; [apply tracks_ret|].
  destruct (isfile e); [apply tracks_copy_file|apply tracks_create_folder].
Qed.

Lemma tracks_delete_unique dry S k : tracks (delete_unique dry S k).
Proof.
  unfold delete_unique. apply tracks_bind; [apply tracks_getitem|intros e].
  apply tracks_bind; [apply tracks_step|intros _].
  destruct dry; [apply tracks_ret|].
  destruct (isfile e); [apply tracks_remove_file|apply tracks_remove_folder].
Qed.

Lemma tracks_replace_changed_one dry A B k : tracks (replace_changed_one dry A B k).
Proof.
  unfold replace_changed_one.
  apply tracks_bind; [apply tracks_getitem|intros se].
  apply tracks_bind; [apply tracks_getitem|intros de].
  apply tracks_bind; [apply tracks_step|intros _].
  destruct dry; [apply tracks_ret|].
  destruct (isfile se); [apply tracks_copy_file|apply tracks_ret].
Qed.

Lemma tracks_report header n (k : M unit) : tracks k → tracks (report header n k).
Proof.
  intros Hk. unfold report.
  apply tracks_bind; [by apply tracks_called|intros _].
  destruct (bool_decide (n ≠ 0)).
  - apply tracks_bind; [by apply tracks_called|intros _].
    apply tracks_bind; [by apply tracks_called|intros _]. done.
  - apply tracks_bind; [by apply tracks_called|intros _]. by apply tracks_called.
Qed.

Lemma tracks_prologue_tail src dst (k : Snapshot → Snapshot → Diff → M unit) :
  (∀ ss ds d, tracks (k ss ds d)) →
  tracks (ss ← take src (-1); ds ← take dst (-1); d ← lift (diff ss ds); k ss ds d).
Proof.
  intros Hk.
  apply tracks_bind; [apply tracks_reads, reads_take|intros ss].
  apply tracks_bind; [apply tracks_reads, reads_take|intros ds].
  apply tracks_bind; [apply tracks_lift|intros d]. apply Hk.
Qed.

(** The reporter at the end of a run of either engine is the reporter the
    run started with, after the calls of the run. *)
Lemma engine_tracks rp src dst (k : Snapshot → Snapshot → Diff → M unit) w :
  (∀ ss ds d, tracks (k ss ds d)) →
  ∃ cs, calls (prologue rp src dst k w).1 = calls w ++ cs ∧
        reporter (prologue rp src dst k w).1
        = foldl Reporter_after (default (Reporter_init "Sync" 100) rp) cs.
Proof.
  intros Hk.
  pose (w0 := mkWorld (fs w) (default (Reporter_init "Sync" 100) rp)
                (calls w) (printed w) (journal w)).
  change (prologue rp src dst k w)
    with ((ss ← take src (-1); ds ← take dst (-1); d ← lift (diff ss ds);
           k ss ds d) w0).
  apply (tracks_prologue_tail src dst k Hk w0).
Qed.

End tracks_facts.

Section reporter_more.
Context `{Platform} `{PySet}.
Local Open Scope prog_scope.

Lemma sync_tracks src dst replace_changed delete_files dry rp w :
  ∃ cs,
    calls (sync src dst replace_changed delete_files dry rp w).1 = calls w ++ cs ∧
    reporter (sync src dst replace_changed delete_files dry rp w).1
    = foldl Reporter_after (default (Reporter_init "Sync" 100) rp) cs.
Proof.
  rewrite sync_eq. apply engine_tracks. intros ss ds d. apply tracks_report.
  apply tracks_bind;
    [apply tracks_for_each; intros k; apply tracks_copy_unique|intros _].
  apply tracks_bind; [|intros _].
  { destruct delete_files; [|apply tracks_ret].
    apply tracks_for_each. intros k. apply tracks_delete_unique. }
  apply tracks_bind; [|intros _; by apply tracks_called].
  destruct replace_changed; [|apply tracks_ret].
  apply tracks_for_each. intros k. apply tracks_replace_changed_one.
Qed.

Lemma after_unit_steps self cs :
  Forall unit_step cs → total self ≠ 0 →
  let self' := foldl Reporter_after self cs in
  name self' = name self ∧ total self' = total self ∧
  amount self' = amount self + len cs ∧
  (cs ≠ [] →
   percent self' = percent_of (amount self + len cs) (total self)).
Proof.
  intros Hcs. revert self. induction Hcs as [|c cs [m ->] _ IH]; intros self Ht.
  - simpl. unfold len. simpl. repeat split; [lia|done].
  - simpl. destruct (IH (Reporter_after self (call_step 1 m)) Ht)
      as (Hn & Htot & Ha & Hp). simpl in *.
    split; [done|]. split; [done|].
    assert (Hlen : amount self + 1 + len cs = amount self + len (call_step 1 m :: cs))
      by (unfold len; simpl; lia).
    split; [by rewrite Ha, Hlen|]. intros _.
    destruct cs as [|c' cs'].
    + simpl. rewrite bool_decide_eq_false_2 by done.
      unfold len. simpl. done.
    + rewrite Hp by done. by rewrite Hlen.
Qed.

Lemma after_run_calls self self' header message n steps :
  Forall unit_step steps → len steps = n → n ≠ 0 →
  self' =
    foldl Reporter_after self
      ([call_set_total n; call_start header; call_info message] ++ steps
         ++ [call_done "Done!"]) →
  name self' = name self ∧ total self' = n ∧ amount self' = amount self + n ∧
  percent self' = percent_of (amount self + n) n.
Proof.
  intros Hsteps Hlen Hn ->. simpl. rewrite foldl_app. simpl.
  destruct (after_unit_steps
              (mkReporter (name self) n (amount self) (percent self)) steps Hsteps)
    as (H1 & H2 & H3 & H4); [done|]. simpl in *.
  split; [done|]. split; [done|]. split; [by rewrite H3, Hlen|].
  rewrite H4; [by rewrite Hlen|].
  intros ->. unfold len in Hlen. simpl in Hlen. lia.
Qed.

(** An int divided by itself is the float [1.0]. *)
Lemma int_truediv_same n :
  n ≠ 0 → int_truediv n n = S754_finite false 4503599627370496 (-52).
Proof.
  assert (Hcore : ∀ p, SFdiv_core_binary 53 1024 (Zpos p) 0 (Zpos p) 0
                       = (2 ^ 53, -53, loc_Exact)).
  { intros p. unfold SFdiv_core_binary.
    change (Z.sub (Z.add (Zdigits2 (Zpos p)) 0) (Z.add (Zdigits2 (Zpos p)) 0))
      with (Zdigits2 (Zpos p) + 0 - (Zdigits2 (Zpos p) + 0)).
    replace (Zdigits2 (Zpos p) + 0 - (Zdigits2 (Zpos p) + 0)) with 0 by lia.
    change ((let '(q, r) := Z.div_eucl (Z.shiftl (Zpos p) 53) (Zpos p) in
             (q, -53, new_location (Zpos p) r)) = (2 ^ 53, -53, loc_Exact)).
    assert (Hq : Z.div_eucl (Z.shiftl (Zpos p) 53) (Zpos p) = (2 ^ 53, 0)).
    { rewrite Z.shiftl_mul_pow2 by lia.
      pose proof (Z.div_eucl_eq (Zpos p * 2 ^ 53) (Zpos p)) as Heq.
      pose proof (Z.mod_pos_bound (Zpos p * 2 ^ 53) (Zpos p)) as Hbound.
      unfold Z.modulo in Hbound.
      destruct (Z.div_eucl (Zpos p * 2 ^ 53) (Zpos p)) as [q r].
      specialize (Heq ltac:(lia)). specialize (Hbound ltac:(lia)).
      assert (q = 2 ^ 53) as -> by nia. f_equal. lia. }
    rewrite Hq. unfold new_location.
    by destruct (Z.even (Zpos p)). }
  intros Hn. unfold int_truediv, SFdiv.
  destruct n as [|p|p]; [done| |]; simpl unrounded; cbv iota beta;
    rewrite Hcore; by vm_compute.
Qed.

Lemma percent_of_whole n : n ≠ 0 → percent_of n n = py_float float_100.
Proof.
  intros Hn. unfold percent_of. rewrite (int_truediv_same n Hn). by vm_compute.
Qed.

End reporter_more.

Section protocol_more.
Context `{Platform} `{PySet}.
Variables (src dst header : string) (total_of : Diff → Z).
Variable steps_of : Snapshot → Snapshot → Diff → list Call.

(** The calls of a run that returns. *)
Lemma run_of_returned dry w w' ss ds d :
  run_of src dst header total_of steps_of dry w w' (Ok tt) →
  (take src (-1) w).2 = Ok ss → (take dst (-1) w).2 = Ok ds → diff ss ds = Ok d →
  calls w' = calls w ++
    if bool_decide (total_of d = 0) then
      [call_set_total 0; call_start header; call_done "Done! Nothing to sync."]
    else
      [call_set_total (total_of d); call_start header;
       call_info ("Syncing " +:+ format_int (total_of d) +:+ " files.")]
      ++ steps_of ss ds d ++ [call_done "Done!"].
Proof.
  intros [msg _ [=] _ _ _|ss' ds' d' Hss' Hds' Hd' Hn _ _ _ Hc
         |ss' ds' d' cs js Hss' Hds' Hd' Hn Hc _ _ Hok _ _] Hss Hds Hd.
  - assert (d' = d) as -> by congruence.
    by rewrite (bool_decide_eq_true_2 _ Hn).
  - assert (ss' = ss) as -> by congruence.
    assert (ds' = ds) as -> by congruence.
    assert (d' = d) as -> by congruence.
    rewrite (bool_decide_eq_false_2 _ Hn), Hc. by rewrite (Hok eq_refl).
Qed.

(** A run in which a snapshot cannot be taken. *)
Lemma run_of_take_failed dry w w' r :
  run_of src dst header total_of steps_of dry w w' r →
  (∀ msg, (take src (-1) w).2 = Raise (OSError msg) ∨
          (∃ ss, (take src (-1) w).2 = Ok ss ∧
                 (take dst (-1) w).2 = Raise (OSError msg)) →
     r = Raise (OSError msg) ∧
     calls w' = calls w ∧ journal w' = journal w ∧ fs w' = fs w) ∧
  (calls w' = calls w →
   ∃ msg, (take src (-1) w).2 = Raise (OSError msg) ∨
          (∃ ss, (take src (-1) w).2 = Ok ss ∧
                 (take dst (-1) w).2 = Raise (OSError msg))).
Proof.
  intros [msg Ht -> Hfs Hc Hj|ss ds d Hss Hds _ _ _ _ _ Hc
         |ss ds d cs js Hss Hds _ _ Hc _ _ _ _ _].
  - split; [|by eauto]. intros msg' Ht'.
    assert (msg' = msg) as ->; [|done].
    destruct Ht as [Ht|(? & ? & Ht)], Ht' as [Ht'|(? & ? & Ht')]; congruence.
  - split.
    + intros msg [Ht|(? & ? & Ht)]; congruence.
    + intros Hsame. rewrite Hsame in Hc. apply (f_equal length) in Hc.
      rewrite length_app in Hc. simpl in Hc. lia.
  - split.
    + intros msg [Ht|(? & ? & Ht)]; congruence.
    + intros Hsame. rewrite Hsame in Hc. apply (f_equal length) in Hc.
      rewrite !length_app in Hc. simpl in Hc. lia.
Qed.

End protocol_more.

Section protocol_claims.
Context `{Platform} `{PySet}.

(** X17.  The full sequence of reporter calls of a run of [sync] that
    returns: [set_total], [start], and then either the single [done] of
    the short way out, or [info], one copy step for each key of
    [left_only] in the diff's order, with [delete_files] one delete step
    for each key of [right_only] in [depth_sort] order, with
    [replace_changed] one replace step for each key of [changed], and
    [done]. *)
Theorem sync_protocol src dst replace_changed delete_files dry rp w w' ss ds d :
  sync src dst replace_changed delete_files dry rp w = (w', Ok tt) →
  (take (normalize [src]) (-1) w).2 = Ok ss →
  (take (normalize [dst]) (-1) w).2 = Ok ds →
  diff ss ds = Ok d →
  let n := sync_total d replace_changed delete_files in
  let header := normalize [src] +:+ " --> " +:+ normalize [dst] in
  calls w' = calls w ++
    if bool_decide (n = 0) then
      [call_set_total 0; call_start header; call_done "Done! Nothing to sync."]
    else
      [call_set_total n; call_start header;
       call_info ("Syncing " +:+ format_int n +:+ " files.")]
      ++ (steps_for "R-> Copy " ss (left_only d)
          ++ (if delete_files
              then steps_for "R-> Delete " ds (depth_sort (right_only d)) else [])
          ++ (if replace_changed
              then steps_for "R-> Replace " ds (changed d) else []))
      ++ [call_done "Done!"].
Proof.
  intros Hrun Hss Hds Hd. apply sync_run_of in Hrun.
  exact (run_of_returned _ _ _ _ _ _ _ _ _ _ _ Hrun Hss Hds Hd).
Qed.

(** X18.  The full sequence of reporter calls of a run of
    [sync_bidirectional] that returns: as for [sync], with one copy step
    to the right for each key of [left_only], then one copy step to the
    left for each key of [right_only] in the diff's order, then, with
    [replace_changed], one replace step for each key of [changed], marked
    with the direction of the copy. *)
Theorem sync_bidirectional_protocol src dst replace_changed dry rp w w' ss ds d :
  sync_bidirectional src dst replace_changed dry rp w = (w', Ok tt) →
  (take (normalize [src]) (-1) w).2 = Ok ss →
  (take (normalize [dst]) (-1) w).2 = Ok ds →
  diff ss ds = Ok d →
  let n := sync_bidirectional_total d replace_changed in
  let header := normalize [src] +:+ " <-> " +:+ normalize [dst] in
  calls w' = calls w ++
    if bool_decide (n = 0) then
      [call_set_total 0; call_start header; call_done "Done! Nothing to sync."]
    else
      [call_set_total n; call_start header;
       call_info ("Syncing " +:+ format_int n +:+ " files.")]
      ++ (steps_for "R-> Copy " ss (left_only d)
          ++ steps_for "<-L Copy " ds (right_only d)
          ++ (if replace_changed then newer_step ss ds <$> changed d else []))
      ++ [call_done "Done!"].
Proof.
  intros Hrun Hss Hds Hd. apply sync_bidirectional_run_of in Hrun.
  exact (run_of_returned _ _ _ _ _ _ _ _ _ _ _ Hrun Hss Hds Hd).
Qed.

(** X19.  A run of [sync] that returns after doing something leaves the
    reporter with [total] set to the number of operations, [amount]
    raised by that number, and [percent] the float that [amount / total *
    100] gives for these two values; [set_total] does not reset [amount].
    With the default reporter the run ends at [amount = total] and
    [percent] exactly [100.0]. *)
Theorem sync_ends_at_total src dst replace_changed delete_files dry rp w w' ss ds d :
  sync src dst replace_changed delete_files dry rp w = (w', Ok tt) →
  (take (normalize [src]) (-1) w).2 = Ok ss →
  (take (normalize [dst]) (-1) w).2 = Ok ds →
  diff ss ds = Ok d →
  let n := sync_total d replace_changed delete_files in
  let self := default (Reporter_init "Sync" 100) rp in
  n ≠ 0 →
  name (reporter w') = name self ∧
  total (reporter w') = n ∧
  amount (reporter w') = amount self + n ∧
  percent (reporter w') = percent_of (amount self + n) n ∧
  (rp = None →
     amount (reporter w') = n ∧ percent (reporter w') = py_float float_100).
Proof.
  intros Hrun Hss Hds Hd n self Hn.
  destruct (sync_tracks src dst replace_changed delete_files dry rp w)
    as (cs & Hc & Hr).
  rewrite Hrun in Hc, Hr. simpl in Hc, Hr.
  apply sync_run_of in Hrun.
  pose proof (run_of_returned _ _ _ _ _ _ _ _ _ _ _ Hrun Hss Hds Hd) as Hcalls.
  simpl in Hcalls. rewrite (bool_decide_eq_false_2 _ Hn) in Hcalls.
  rewrite Hcalls in Hc. apply app_inv_head in Hc. subst cs.
  destruct (after_run_calls self (reporter w')
              (normalize [src] +:+ " --> " +:+ normalize [dst])
              ("Syncing " +:+ format_int n +:+ " files.") n
              (sync_steps ss ds d replace_changed delete_files))
    as (H1 & H2 & H3 & H4);
    [apply unit_step_sync_steps|apply len_sync_steps|done|exact Hr|].
  split; [done|]. split; [done|]. split; [done|]. split; [done|].
  intros ->. subst self. simpl in *. split; [lia|].
  rewrite H4, Z.add_0_l. by apply percent_of_whole.
Qed.

(** X20.  When a snapshot cannot be taken the engine stops there: it
    raises the [OSError] of [take] (the source's when both would fail),
    having called the reporter not once and the platform not once.  That
    is the only way a run ends without a reporter call. *)
Theorem failed_take_stops_engine src dst replace_changed delete_files dry rp w w' r :
  sync src dst replace_changed delete_files dry rp w = (w', r) ∨
  sync_bidirectional src dst replace_changed dry rp w = (w', r) →
  (∀ msg, (take (normalize [src]) (-1) w).2 = Raise (OSError msg) ∨
          (∃ ss, (take (normalize [src]) (-1) w).2 = Ok ss ∧
                 (take (normalize [dst]) (-1) w).2 = Raise (OSError msg)) →
     r = Raise (OSError msg) ∧
     calls w' = calls w ∧ journal w' = journal w ∧ fs w' = fs w) ∧
  (calls w' = calls w →
   ∃ msg, (take (normalize [src]) (-1) w).2 = Raise (OSError msg) ∨
          (∃ ss, (take (normalize [src]) (-1) w).2 = Ok ss ∧
                 (take (normalize [dst]) (-1) w).2 = Raise (OSError msg))).
Proof.
  intros [Hrun|Hrun].
  - apply sync_run_of in Hrun. by eapply run_of_take_failed.
  - apply sync_bidirectional_run_of in Hrun. by eapply run_of_take_failed.
Qed.

End protocol_claims.

(* ===================================================================== *)
(** * The platform calls of a run *)
(* ===================================================================== *)

Section only_facts.
Context `{Platform} `{PySet}.
Local Open Scope prog_scope.

Lemma only_weaken {A} (P Q : Op → Prop) (c : M A) :
  (∀ o, P o → Q o) → only P c → only Q c.
Proof.
  intros HPQ Hc w. destruct (Hc w) as (js & Hj & Hall).
  exists js. split; [done|]. by eapply Forall_impl.
Qed.

Lemma only_still {A} P (c : M A) :
  (∀ w, journal (c w).1 = journal w) → only P c.
Proof. intros Hc w. exists []. by rewrite app_nil_r. Qed.

Lemma only_ret {A} P (a : A) : only P (ret a).
Proof. by apply only_still. Qed.

Lemma only_reads {A} P (c : M A) : reads c → only P c.
Proof. intros (Hc & _). apply only_still. intros w. by rewrite Hc. Qed.

Lemma only_bind {A B} P (c : M A) (k : A → M B) :
  only P c → (∀ a, only P (k a)) → only P (bind c k).
Proof.
  intros Hc Hk w. destruct (Hc w) as (js1 & Hj1 & Hall1). unfold bind.
  destruct (c w) as [w1 [a|e]]; simpl in *.
  - destruct (Hk a w1) as (js2 & Hj2 & Hall2). exists (js1 ++ js2).
    rewrite Hj2, Hj1, app_assoc. split; [done|]. by apply Forall_app.
  - by exists js1.
Qed.

Lemma only_for_each {A} P (l : list A) (body : A → M unit) :
  (∀ k, k ∈ l → only P (body k)) → only P (for_each l body).
Proof.
  induction l as [|k l IH]; intros Hbody; simpl.
  - apply only_ret.
  - apply only_bind; [apply Hbody; by left|intros _].
    apply IH. intros k' Hk'. apply Hbody. by right.
Qed.

Lemma only_called P c u : only P (called c u).
Proof. by apply only_still. Qed.

Lemma only_step P a m : only P (step a m).
Proof.
  apply only_still. intros w. unfold step, bind, called. simpl.
  by destruct (bool_decide (total (reporter w) = 0)).
Qed.

Lemma only_getitem {B} P (S : Snapshot) k (body : Entry → M B) :
  (∀ e, S !! k = Some e → only P (body e)) → only P (bind (getitem S k) body).
Proof.
  intros Hbody w. unfold bind, getitem.
  destruct (S !! k) as [e|]; simpl; [by apply Hbody|].
  exists []. by rewrite app_nil_r.
Qed.

Lemma only_remove_file P p :
  (∀ ok, P (op_remove p ok)) → only P (remove_file p).
Proof.
  intros HP w. rewrite remove_file_run.
  destruct (os_remove p (fs w)); simpl; eexists; (split; [done|]);
    by apply Forall_singleton.
Qed.

Lemma only_remove_folder P p :
  (∀ ok, P (op_rmdir p ok)) → only P (remove_folder p).
Proof.
  intros HP w. rewrite remove_folder_run.
  destruct (os_listdir (fs w) p) as [?|[|??]]; simpl;
    [exists []; by rewrite app_nil_r| |exists []; by rewrite app_nil_r].
  destruct (os_rmdir p (fs w)); simpl; eexists; (split; [done|]);
    by apply Forall_singleton.
Qed.

Lemma only_create_folder P p :
  (∀ ok, P (op_makedirs p ok)) → only P (create_folder p).
Proof.
  intros HP w. rewrite create_folder_run.
  destruct (os_path_isdir (fs w) p); simpl; [exists []; by rewrite app_nil_r|].
  destruct (os_makedirs p (fs w)); simpl; eexists; (split; [done|]);
    by apply Forall_singleton.
Qed.

Lemma only_copy_file P s d :
  (∀ ok, P (op_makedirs (os_path_dirname d) ok)) → (∀ ok, P (op_copy2 s d ok)) →
  only P (copy_file s d).
Proof.
  intros Hm Hc. unfold copy_file.
  apply only_bind; [by apply only_create_folder|intros _].
  intros w. unfold mutate.
  destruct (shutil_copy2 s d (fs w)); simpl; eexists; (split; [done|]);
    by apply Forall_singleton.
Qed.

Lemma only_copy_unique prefix to_root dry (S : Snapshot) keys k :
  k ∈ keys →
  only (λ o, dry = false ∧ copy_op to_root S keys o)
       (copy_unique prefix to_root dry S k).
Proof.
  intros Hk. unfold copy_unique. apply only_getitem. intros e He.
  apply only_bind; [apply only_step|intros _].
  destruct dry; [apply only_ret|].
  destruct (isfile e) eqn:Hf.
  - apply only_copy_file; intros ok; (split; [done|]); exists k, e, ok;
      (split; [done|]); (split; [done|]); simpl; rewrite Hf; auto.
  - apply only_create_folder. intros ok. split; [done|]. exists k, e, ok.
    split; [done|]. split; [done|]. simpl. by rewrite Hf.
Qed.

Lemma only_delete_unique dry (S : Snapshot) keys k :
  k ∈ keys →
  only (λ o, dry = false ∧ delete_op S keys o) (delete_unique dry S k).
Proof.
  intros Hk. unfold delete_unique. apply only_getitem. intros e He.
  apply only_bind; [apply only_step|intros _].
  destruct dry; [apply only_ret|].
  destruct (isfile e) eqn:Hf.
  - apply only_remove_file. intros ok. split; [done|]. exists k, e, ok.
    by rewrite Hf.
  - apply only_remove_folder. intros ok. split; [done|]. exists k, e, ok.
    by rewrite Hf.
Qed.

Lemma only_replace_changed_one dry (A B : Snapshot) keys k :
  k ∈ keys →
  only (λ o, dry = false ∧ replace_op (λ _ _, True) A B keys o)
       (replace_changed_one dry A B k).
Proof.
  intros Hk. unfold replace_changed_one.
  apply only_getitem. intros a Ha. apply only_getitem. intros b Hb.
  apply only_bind; [apply only_step|intros _].
  destruct dry; [apply only_ret|].
  destruct (isfile a) eqn:Hf; [|apply only_ret].
  apply only_copy_file; intros ok; (split; [done|]); exists k, a, b, ok; auto 10.
Qed.

Lemma only_replace_newer_one dry (A B : Snapshot) keys k :
  k ∈ keys →
  only (λ o, dry = false ∧
             (replace_op (λ a b, mtime a > mtime b) A B keys o ∨
              replace_op (λ b a, ¬ mtime a > mtime b) B A keys o))
       (replace_newer_one dry A B k).
Proof.
  intros Hk. unfold replace_newer_one.
  apply only_getitem. intros a Ha. apply only_getitem. intros b Hb.
  destruct (bool_decide (mtime a > mtime b)) eqn:Hnewer;
    [apply bool_decide_eq_true in Hnewer|apply bool_decide_eq_false in Hnewer];
    (apply only_bind; [apply only_step|intros _]);
    (destruct dry; [apply only_ret|]).
  - destruct (isfile a) eqn:Hf; [|apply only_ret].
    apply only_copy_file; intros ok; (split; [done|]); left;
      exists k, a, b, ok; auto 10.
  - destruct (isfile b) eqn:Hf; [|apply only_ret].
    apply only_copy_file; intros ok; (split; [done|]); right;
      exists k, b, a, ok; auto 10.
Qed.

Lemma only_report P header n (k : M unit) : only P k → only P (report header n k).
Proof.
  intros Hk. unfold report.
  apply only_bind; [apply only_called|intros _].
  destruct (bool_decide (n ≠ 0)).
  - apply only_bind; [apply only_called|intros _].
    by apply only_bind; [apply only_called|intros _].
  - apply only_bind; [apply only_called|intros _]. apply only_called.
Qed.

Lemma only_sync_tail dst ss ds d replace_changed delete_files dry :
  only (λ o, dry = false ∧ sync_op dst ss ds d replace_changed delete_files o)
    (for_each (left_only d) (copy_unique "R-> Copy " dst dry ss) ;;
     (if delete_files then
        for_each (depth_sort (right_only d)) (delete_unique dry ds)
      else ret tt) ;;
     (if replace_changed then
        for_each (changed d) (replace_changed_one dry ss ds)
      else ret tt) ;;
     done "Done!").
Proof.
  apply only_bind; [|intros _; apply only_bind; [|intros _; apply only_bind]].
  - apply only_for_each. intros k Hk.
    eapply only_weaken; [|by apply only_copy_unique].
    intros o [? ?]. split; [done|by left].
  - destruct delete_files eqn:Hdel; [|apply only_ret].
    apply only_for_each. intros k Hk.
    apply (proj1 (elem_of_depth_sort _ _)) in Hk.
    eapply only_weaken; [|by apply only_delete_unique].
    intros o [? ?]. split; [done|]. right. left. by split.
  - destruct replace_changed eqn:Hrep; [|apply only_ret].
    apply only_for_each. intros k Hk.
    eapply only_weaken; [|by apply only_replace_changed_one].
    intros o [? ?]. split; [done|]. right. right. by split.
  - intros _. apply only_called.
Qed.

Lemma only_sync_bidirectional_tail src dst ss ds d replace_changed dry :
  only (λ o, dry = false ∧
             sync_bidirectional_op src dst ss ds d replace_changed o)
    (for_each (left_only d) (copy_unique "R-> Copy " dst dry ss) ;;
     for_each (right_only d) (copy_unique "<-L Copy " src dry ds) ;;
     (if replace_changed then
        for_each (changed d) (replace_newer_one dry ss ds)
      else ret tt) ;;
     done "Done!").
Proof.
  apply only_bind; [|intros _; apply only_bind; [|intros _; apply only_bind]].
  - apply only_for_each. intros k Hk.
    eapply only_weaken; [|by apply only_copy_unique].
    intros o [? ?]. split; [done|by left].
  - apply only_for_each. intros k Hk.
    eapply only_weaken; [|by apply only_copy_unique].
    intros o [? ?]. split; [done|]. right. by left.
  - destruct replace_changed eqn:Hrep; [|apply only_ret].
    apply only_for_each. intros k Hk.
    eapply only_weaken; [|by apply only_replace_newer_one].
    intros o [? ?]. split; [done|]. right. right. by split.
  - intros _. apply only_called.
Qed.

(** The journal of a run whose snapshots were taken. *)
Lemma engine_journal P rp src dst (k : Snapshot → Snapshot → Diff → M unit)
    w w' r ss ds d :
  prologue rp src dst k w = (w', r) →
  (take src (-1) w).2 = Ok ss → (take dst (-1) w).2 = Ok ds → diff ss ds = Ok d →
  only P (k ss ds d) →
  ∃ js, journal w' = journal w ++ js ∧ Forall P js.
Proof.
  intros Hrun Hss Hds Hd Hk. apply prologue_run in Hrun.
  destruct Hrun as [(msg & _ & _ & [Ht|(? & _ & Ht)])
                   |(ss' & ds' & d' & Hss' & Hds' & Hd' & Hrun)];
    [congruence|congruence|].
  assert (ss' = ss) as -> by congruence.
  assert (ds' = ds) as -> by congruence.
  assert (d' = d) as -> by congruence.
  destruct (Hk (mkWorld (fs w) (default (Reporter_init "Sync" 100) rp)
                  (calls w) (printed w) (journal w))) as (js & Hj & Hall).
  rewrite Hrun in Hj. by exists js.
Qed.

Lemma no_call_when_dry (P : Op → Prop) dry js :
  Forall (λ o, dry = false ∧ P o) js →
  Forall P js ∧ (dry = true → js = []).
Proof.
  intros Hall. split.
  - eapply Forall_impl; [exact Hall|]. by intros o [_ ?].
  - intros ->. destruct js as [|o js]; [done|].
    by apply Forall_cons in Hall as [[? _] _].
Qed.

Lemma copy_op_not_removal to_root S keys o : copy_op to_root S keys o → ¬ removal o.
Proof.
  intros (k & e & ok & _ & _ & Ho) (p & ok' & Hr). simpl in Ho.
  destruct (isfile e); [destruct Ho as [->| ->]|subst o];
    by destruct Hr.
Qed.

Lemma replace_op_not_removal chosen A B keys o :
  replace_op chosen A B keys o → ¬ removal o.
Proof.
  intros (k & a & b & ok & _ & _ & _ & _ & _ & [->| ->]) (p & ok' & Hr);
    by destruct Hr.
Qed.

(** X21.  Every platform call of a run of [sync] is one of these: for a
    key of [left_only], the copy of the source file to its place under the
    destination root, or [makedirs] of that place's parent, or, for a
    folder, [makedirs] of its place; with [delete_files], for a key of
    [right_only], [remove] of the destination file or [rmdir] of the
    destination folder; with [replace_changed], for a key of [changed]
    whose source entry is a file, the copy of the source file over the
    destination entry or [makedirs] of its parent.  A dry run makes no
    call, and without [delete_files] nothing is removed. *)
Theorem sync_platform_calls src dst replace_changed delete_files dry rp w w' r ss ds d :
  sync src dst replace_changed delete_files dry rp w = (w', r) →
  (take (normalize [src]) (-1) w).2 = Ok ss →
  (take (normalize [dst]) (-1) w).2 = Ok ds →
  diff ss ds = Ok d →
  ∃ js, journal w' = journal w ++ js ∧
    Forall (sync_op (normalize [dst]) ss ds d replace_changed delete_files) js ∧
    (dry = true → js = []) ∧
    (delete_files = false → ∀ o, o ∈ js → ¬ removal o).
Proof.
  rewrite sync_eq. intros Hrun Hss Hds Hd.
  destruct (engine_journal _ _ _ _ _ _ _ _ _ _ _ Hrun Hss Hds Hd
              (only_report _ _ _ _
                 (only_sync_tail (normalize [dst]) ss ds d
                    replace_changed delete_files dry)))
    as (js & Hj & Hall).
  apply no_call_when_dry in Hall as [Hall Hdry].
  exists js. split; [done|]. split; [done|]. split; [done|].
  intros -> o Ho. rewrite Forall_forall in Hall.
  destruct (Hall o Ho) as [Hc|[[? _]|[_ Hr]]]; [|done|].
  - by eapply copy_op_not_removal.
  - by eapply replace_op_not_removal.
Qed.

(** X22.  Every platform call of a run of [sync_bidirectional] is one of
    these: for a key of [left_only], the copy of the source file to its
    place under the destination root (or [makedirs] for it or for a
    folder); for a key of [right_only], the same from the destination to
    the source root; with [replace_changed], for a key of [changed], the
    copy of the entry with the greater mtime, when it is a file, over the
    other one, the destination's entry winning a tie, or [makedirs] of the
    target's parent.  A dry run makes no call, and nothing is ever
    removed. *)
Theorem sync_bidirectional_platform_calls src dst replace_changed dry rp
    w w' r ss ds d :
  sync_bidirectional src dst replace_changed dry rp w = (w', r) →
  (take (normalize [src]) (-1) w).2 = Ok ss →
  (take (normalize [dst]) (-1) w).2 = Ok ds →
  diff ss ds = Ok d →
  ∃ js, journal w' = journal w ++ js ∧
    Forall (sync_bidirectional_op (normalize [src]) (normalize [dst]) ss ds d
              replace_changed) js ∧
    (dry = true → js = []) ∧
    (∀ o, o ∈ js → ¬ removal o).
Proof.
  rewrite sync_bidirectional_eq. intros Hrun Hss Hds Hd.
  destruct (engine_journal _ _ _ _ _ _ _ _ _ _ _ Hrun Hss Hds Hd
              (only_report _ _ _ _
                 (only_sync_bidirectional_tail (normalize [src]) (normalize [dst])
                    ss ds d replace_changed dry)))
    as (js & Hj & Hall).
  apply no_call_when_dry in Hall as [Hall Hdry].
  exists js. split; [done|]. split; [done|]. split; [done|].
  intros o Ho. rewrite Forall_forall in Hall.
  destruct (Hall o Ho) as [Hc|[Hc|[_ [Hr|Hr]]]].
  - by eapply copy_op_not_removal.
  - by eapply copy_op_not_removal.
  - by eapply replace_op_not_removal.
  - by eapply replace_op_not_removal.
Qed.

End only_facts.

(* ===================================================================== *)
(** * The properties above, on concrete trees *)
(* ===================================================================== *)

Lemma sync_protocol_witness :
  let run := Trees.run_sync Trees.plain true true false in
  run.2 = Ok tt ∧
  calls run.1 =
    [call_set_total 3; call_start "/s --> /t"; call_info "Syncing 3 files.";
     call_step 1 "R-> Copy a.txt"; call_step 1 "R-> Delete b.txt";
     call_step 1 "R-> Replace c.txt"; call_done "Done!"].
Proof.
  intros run.
  pose (w := MemFS.world Trees.plain).
  pose (ss := taken (@take MemFS.platform "/s" (-1) w).2).
  pose (ds := taken (@take MemFS.platform "/t" (-1) w).2).
  pose (d := diffed (@diff elements_order ss ds)).
  assert (Hr : run.2 = Ok tt) by (vm_compute; reflexivity).
  split; [exact Hr|].
  assert (Hrun : Trees.run_sync Trees.plain true true false = (run.1, Ok tt))
    by (rewrite <- Hr; apply surjective_pairing).
  refine (eq_trans (@sync_protocol MemFS.platform elements_order
                      "/s" "/t" true true false None w run.1 ss ds d Hrun _ _ _) _).
  - apply taken_Ok. vm_compute. reflexivity.
  - apply taken_Ok. vm_compute. reflexivity.
  - apply diffed_Ok. vm_compute. reflexivity.
  - vm_compute. reflexivity.
Defined.

Lemma sync_bidirectional_protocol_witness :
  let run := Trees.run_sync_bidirectional Trees.plain true false in
  run.2 = Ok tt ∧
  calls run.1 =
    [call_set_total 3; call_start "/s <-> /t"; call_info "Syncing 3 files.";
     call_step 1 "R-> Copy a.txt"; call_step 1 "<-L Copy b.txt";
     call_step 1 "R-> Replace c.txt"; call_done "Done!"].
Proof.
  intros run.
  pose (w := MemFS.world Trees.plain).
  pose (ss := taken (@take MemFS.platform "/s" (-1) w).2).
  pose (ds := taken (@take MemFS.platform "/t" (-1) w).2).
  pose (d := diffed (@diff elements_order ss ds)).
  assert (Hr : run.2 = Ok tt) by (vm_compute; reflexivity).
  split; [exact Hr|].
  assert (Hrun : Trees.run_sync_bidirectional Trees.plain true false
                 = (run.1, Ok tt))
    by (rewrite <- Hr; apply surjective_pairing).
  refine (eq_trans (@sync_bidirectional_protocol MemFS.platform elements_order
                      "/s" "/t" true false None w run.1 ss ds d Hrun _ _ _) _).
  - apply taken_Ok. vm_compute. reflexivity.
  - apply taken_Ok. vm_compute. reflexivity.
  - apply diffed_Ok. vm_compute. reflexivity.
  - vm_compute. reflexivity.
Defined.

Lemma sync_ends_at_total_witness :
  let run := Trees.run_sync Trees.plain true true false in
  run.2 = Ok tt ∧
  total (reporter run.1) = 3 ∧ amount (reporter run.1) = 3 ∧
  percent (reporter run.1) = py_float float_100.
Proof.
  intros run.
  pose (w := MemFS.world Trees.plain).
  pose (ss := taken (@take MemFS.platform "/s" (-1) w).2).
  pose (ds := taken (@take MemFS.platform "/t" (-1) w).2).
  pose (d := diffed (@diff elements_order ss ds)).
  assert (Hr : run.2 = Ok tt) by (vm_compute; reflexivity).
  split; [exact Hr|].
  assert (Hrun : Trees.run_sync Trees.plain true true false = (run.1, Ok tt))
    by (rewrite <- Hr; apply surjective_pairing).
  assert (Hn : sync_total d true true = 3) by (vm_compute; reflexivity).
  destruct (@sync_ends_at_total MemFS.platform elements_order
              "/s" "/t" true true false None w run.1 ss ds d Hrun)
    as (_ & Ht & _ & _ & Hdefault).
  - apply taken_Ok. vm_compute. reflexivity.
  - apply taken_Ok. vm_compute. reflexivity.
  - apply diffed_Ok. vm_compute. reflexivity.
  - rewrite Hn. done.
  - destruct (Hdefault eq_refl) as [Ha Hp].
    rewrite Hn in Ht, Ha. by split; [|split].
Defined.

Lemma failed_take_stops_engine_witness :
  let w := MemFS.world MoreTrees.backslash_name in
  let run := @sync MemFS.platform elements_order "/s" "/t" false false false None w in
  (@take MemFS.platform "/s" (-1) w).2 = Raise (OSError "No such file or directory") ∧
  run.2 = Raise (OSError "No such file or directory") ∧
  calls run.1 = [] ∧ journal run.1 = [].
Proof.
  intros w run.
  assert (Ht : (@take MemFS.platform "/s" (-1) w).2
               = Raise (OSError "No such file or directory"))
    by (vm_compute; reflexivity).
  split; [exact Ht|].
  destruct (@failed_take_stops_engine MemFS.platform elements_order
              "/s" "/t" false false false None w run.1 run.2
              (or_introl (surjective_pairing _))) as [Hfail _].
  destruct (Hfail "No such file or directory" (or_introl Ht)) as (Hr & Hc & Hj & _).
  by split; [|split].
Defined.

Lemma sync_platform_calls_witness :
  let w := MemFS.world MoreTrees.surplus in
  let run := @sync MemFS.platform elements_order "/s" "/t" false true false None w in
  let ss := taken (@take MemFS.platform "/s" (-1) w).2 in
  let ds := taken (@take MemFS.platform "/t" (-1) w).2 in
  let d := diffed (@diff elements_order ss ds) in
  journal run.1 =
    [op_remove "/t/old/x.txt" true; op_rmdir "/t/old" true;
     op_remove "/t/y.txt" true] ∧
  Forall (@sync_op MemFS.platform "/t" ss ds d false true) (journal run.1).
Proof.
  intros w run ss ds d.
  assert (Hj : journal run.1 =
    [op_remove "/t/old/x.txt" true; op_rmdir "/t/old" true;
     op_remove "/t/y.txt" true]) by (vm_compute; reflexivity).
  split; [exact Hj|].
  destruct (@sync_platform_calls MemFS.platform elements_order
              "/s" "/t" false true false None w run.1 run.2 ss ds d
              (surjective_pairing _)) as (js & Hjs & Hall & _).
  - apply taken_Ok. vm_compute. reflexivity.
  - apply taken_Ok. vm_compute. reflexivity.
  - apply diffed_Ok. vm_compute. reflexivity.
  - simpl in Hjs. rewrite Hjs. exact Hall.
Defined.

Lemma sync_bidirectional_platform_calls_witness :
  let w := MemFS.world Trees.plain in
  let run := Trees.run_sync_bidirectional Trees.plain true false in
  journal run.1 =
    [op_copy2 "/s/a.txt" "/t/a.txt" true; op_copy2 "/t/b.txt" "/s/b.txt" true;
     op_copy2 "/s/c.txt" "/t/c.txt" true] ∧
  ∀ o, o ∈ journal run.1 → ¬ removal o.
Proof.
  intros w run.
  pose (ss := taken (@take MemFS.platform "/s" (-1) w).2).
  pose (ds := taken (@take MemFS.platform "/t" (-1) w).2).
  pose (d := diffed (@diff elements_order ss ds)).
  assert (Hj : journal run.1 =
    [op_copy2 "/s/a.txt" "/t/a.txt" true; op_copy2 "/t/b.txt" "/s/b.txt" true;
     op_copy2 "/s/c.txt" "/t/c.txt" true]) by (vm_compute; reflexivity).
  split; [exact Hj|].
  destruct (@sync_bidirectional_platform_calls MemFS.platform elements_order
              "/s" "/t" true false None w run.1 run.2 ss ds d
              (surjective_pairing _)) as (js & Hjs & _ & _ & Hnever).
  - apply taken_Ok. vm_compute. reflexivity.
  - apply taken_Ok. vm_compute. reflexivity.
  - apply diffed_Ok. vm_compute. reflexivity.
  - simpl in Hjs. rewrite Hjs. exact Hnever.
Defined.
